(** * Frame-rate normalisation in [parse.py]

    A shallow embedding of [ImageTopicHandler] and [process_bag] from
    [src/parse.py], and the properties of the sidecar rows and video frames
    they produce.

    Python integers are unbounded, so timestamps, periods and frame counters
    are [Z].  The objects the script mutates ([ImageTopicHandler], the
    [handlers] dict, the csv file, the cv2 [VideoWriter]) are threaded as
    explicit state through a small state-and-exception monad; a Python
    exception leaves the state mutated so far visible, so [Raise] carries it.
    The [while] loop of [emit_frozen_frames_until] is bounded by fuel, and a
    run that exhausts it is [Timeout]; with a positive period the loop ends,
    and the outcome of a run that ends does not depend on the fuel.

    The file has the model first, then the vocabulary of the properties,
    then the proofs: the steps of a call, the invariants of the handler, the
    sidecar of a stream of frames, the video sink, [process_bag]. *)

From Stdlib Require Import ZArith Lia Ascii String.
From stdpp Require Import base option list list_numbers sorting gmap strings.

Local Open Scope Z_scope.

(** ** Outcomes *)

Inductive Exn : Set :=
| CvBridgeError    (* imgmsg_to_cv2 / cvtColor cannot produce a BGR raster *)
| RuntimeError     (* "Failed to open VideoWriter with FFV1. ..." *)
| Cv2Error         (* raised from inside VideoWriter.write *)
| TypeError        (* arithmetic on None *)
| ValueError       (* "I/O operation on closed file" *)
| KeyError         (* topics[topic] *)
| AttributeError.  (* msg.status on a message without it *)

Inductive Res (St A : Type) : Type :=
| Ret (a : A) (s : St)
| Raise (e : Exn) (s : St)
| Timeout.
Arguments Ret {St A} a s.
Arguments Raise {St A} e s.
Arguments Timeout {St A}.

Definition Prog (St A : Type) : Type := St -> Res St A.

Definition ret {St A} (a : A) : Prog St A := fun s => Ret a s.
Definition raise {St A} (e : Exn) : Prog St A := fun s => Raise e s.
Definition get {St} : Prog St St := fun s => Ret s s.
Definition modify {St} (f : St -> St) : Prog St unit := fun s => Ret tt (f s).
Definition bind {St A B} (c : Prog St A) (k : A -> Prog St B) : Prog St B :=
  fun s =>
    match c s with
    | Ret a s' => k a s'
    | Raise e s' => Raise e s'
    | Timeout => Timeout
    end.

Declare Scope prog_scope.
Delimit Scope prog_scope with prog.
Notation "x <- c ;; k" := (bind c (fun x => k))
  (at level 100, c at next level, right associativity) : prog_scope.
Notation "c ;; k" := (bind c (fun _ => k))
  (at level 100, right associativity) : prog_scope.
Local Open Scope prog_scope.

(** The state an outcome ends in: the returned one, or the one an exception
    escaped from.  [Timeout] has none. *)
Definition final {St A} (r : Res St A) : option St :=
  match r with
  | Ret _ s => Some s
  | Raise _ s => Some s
  | Timeout => None
  end.

(** ** Data *)

(** A BGR raster as [cv2.cvtColor] returns it: [shape[:2] = (img_h, img_w)]. *)
Record Image : Set := { img_h : Z; img_w : Z; img_data : list Z }.

(** One sidecar row, [[frame_index, video_timestamp_ns, source_timestamp_ns,
    is_repeat]].  The third cell is whatever [last_source_ts_ns] or [t_ns]
    holds, so it is an [option]; [is_repeat] is written as [1] or [0]. *)
Record Row : Set := {
  frame_index : Z;
  video_timestamp_ns : Z;
  source_timestamp_ns : option Z;
  is_repeat : bool
}.

(** ** The video sink ([cv2.VideoWriter])

    OpenCV is not part of the repository.  What the handler relies on is kept
    as a parameter: whether a writer for a given geometry opens, and what
    [write] does with a frame whose geometry is not the writer's (drop it
    silently, as the FFmpeg backend does, or raise). *)

Inductive MismatchPolicy : Set := MismatchDrops | MismatchRaises.

Record Cv2 : Type := {
  cv2_opens : Z -> Z -> bool;      (* width, height *)
  cv2_mismatch : MismatchPolicy
}.

Record VideoWriter : Set := {
  vw_w : Z;
  vw_h : Z;
  vw_opened : bool;
  vw_frames : list Image;          (* frames appended, in order *)
  vw_releases : nat                (* how often release() was called *)
}.

Definition VideoWriter_new (cv2 : Cv2) (w h : Z) : VideoWriter :=
  {| vw_w := w; vw_h := h; vw_opened := cv2_opens cv2 w h;
     vw_frames := []; vw_releases := 0 |}.

Definition same_geometry (vw : VideoWriter) (img : Image) : bool :=
  (img_w img =? vw_w vw) && (img_h img =? vw_h vw).

(** [None] stands for an exception from inside [write]. *)
Definition VideoWriter_write (cv2 : Cv2) (img : Image) (vw : VideoWriter)
  : option VideoWriter :=
  if negb (vw_opened vw) then Some vw
  else if same_geometry vw img then
    Some {| vw_w := vw_w vw; vw_h := vw_h vw; vw_opened := vw_opened vw;
            vw_frames := vw_frames vw ++ [img]; vw_releases := vw_releases vw |}
  else match cv2_mismatch cv2 with
       | MismatchDrops => Some vw
       | MismatchRaises => None
       end.

Definition VideoWriter_release (vw : VideoWriter) : VideoWriter :=
  {| vw_w := vw_w vw; vw_h := vw_h vw; vw_opened := false;
     vw_frames := vw_frames vw; vw_releases := S (vw_releases vw) |}.

(** ** [ImageTopicHandler] *)

Record ImageTopicHandler : Set := {
  period_ns : Z;
  writer : option VideoWriter;
  frame_idx : Z;
  next_target_ts_ns : option Z;
  last_frame_bgr : option Image;
  video_start_ts : option Z;
  first_img_seen : bool;
  last_source_ts_ns : option Z;
  csv_header : list string;        (* the row written by __init__ *)
  csv_rows : list Row;             (* rows written through csv_w since *)
  csv_closes : nat                 (* how often csv_f.close() was called *)
}.

Definition set_writer (w : option VideoWriter) (h : ImageTopicHandler) :=
  {| period_ns := period_ns h; writer := w; frame_idx := frame_idx h;
     next_target_ts_ns := next_target_ts_ns h;
     last_frame_bgr := last_frame_bgr h; video_start_ts := video_start_ts h;
     first_img_seen := first_img_seen h;
     last_source_ts_ns := last_source_ts_ns h; csv_header := csv_header h;
     csv_rows := csv_rows h; csv_closes := csv_closes h |}.

Definition set_frame_idx (i : Z) (h : ImageTopicHandler) :=
  {| period_ns := period_ns h; writer := writer h; frame_idx := i;
     next_target_ts_ns := next_target_ts_ns h;
     last_frame_bgr := last_frame_bgr h; video_start_ts := video_start_ts h;
     first_img_seen := first_img_seen h;
     last_source_ts_ns := last_source_ts_ns h; csv_header := csv_header h;
     csv_rows := csv_rows h; csv_closes := csv_closes h |}.

Definition set_next_target_ts_ns (t : option Z) (h : ImageTopicHandler) :=
  {| period_ns := period_ns h; writer := writer h; frame_idx := frame_idx h;
     next_target_ts_ns := t;
     last_frame_bgr := last_frame_bgr h; video_start_ts := video_start_ts h;
     first_img_seen := first_img_seen h;
     last_source_ts_ns := last_source_ts_ns h; csv_header := csv_header h;
     csv_rows := csv_rows h; csv_closes := csv_closes h |}.

Definition set_last_frame_bgr (i : option Image) (h : ImageTopicHandler) :=
  {| period_ns := period_ns h; writer := writer h; frame_idx := frame_idx h;
     next_target_ts_ns := next_target_ts_ns h;
     last_frame_bgr := i; video_start_ts := video_start_ts h;
     first_img_seen := first_img_seen h;
     last_source_ts_ns := last_source_ts_ns h; csv_header := csv_header h;
     csv_rows := csv_rows h; csv_closes := csv_closes h |}.

Definition set_video_start_ts (t : option Z) (h : ImageTopicHandler) :=
  {| period_ns := period_ns h; writer := writer h; frame_idx := frame_idx h;
     next_target_ts_ns := next_target_ts_ns h;
     last_frame_bgr := last_frame_bgr h; video_start_ts := t;
     first_img_seen := first_img_seen h;
     last_source_ts_ns := last_source_ts_ns h; csv_header := csv_header h;
     csv_rows := csv_rows h; csv_closes := csv_closes h |}.

Definition set_first_img_seen (b : bool) (h : ImageTopicHandler) :=
  {| period_ns := period_ns h; writer := writer h; frame_idx := frame_idx h;
     next_target_ts_ns := next_target_ts_ns h;
     last_frame_bgr := last_frame_bgr h; video_start_ts := video_start_ts h;
     first_img_seen := b;
     last_source_ts_ns := last_source_ts_ns h; csv_header := csv_header h;
     csv_rows := csv_rows h; csv_closes := csv_closes h |}.

Definition set_last_source_ts_ns (t : option Z) (h : ImageTopicHandler) :=
  {| period_ns := period_ns h; writer := writer h; frame_idx := frame_idx h;
     next_target_ts_ns := next_target_ts_ns h;
     last_frame_bgr := last_frame_bgr h; video_start_ts := video_start_ts h;
     first_img_seen := first_img_seen h;
     last_source_ts_ns := t; csv_header := csv_header h;
     csv_rows := csv_rows h; csv_closes := csv_closes h |}.

Definition set_csv_rows (r : list Row) (h : ImageTopicHandler) :=
  {| period_ns := period_ns h; writer := writer h; frame_idx := frame_idx h;
     next_target_ts_ns := next_target_ts_ns h;
     last_frame_bgr := last_frame_bgr h; video_start_ts := video_start_ts h;
     first_img_seen := first_img_seen h;
     last_source_ts_ns := last_source_ts_ns h; csv_header := csv_header h;
     csv_rows := r; csv_closes := csv_closes h |}.

Definition set_csv_closes (n : nat) (h : ImageTopicHandler) :=
  {| period_ns := period_ns h; writer := writer h; frame_idx := frame_idx h;
     next_target_ts_ns := next_target_ts_ns h;
     last_frame_bgr := last_frame_bgr h; video_start_ts := video_start_ts h;
     first_img_seen := first_img_seen h;
     last_source_ts_ns := last_source_ts_ns h; csv_header := csv_header h;
     csv_rows := csv_rows h; csv_closes := n |}.

(** [__init__]: [period_ns] is [int(round(1e9 / target_fps))]; the float
    division is not modelled, the handler is built from the period.  (The
    other use of [target_fps] is the nominal rate passed to cv2.) *)
Definition ImageTopicHandler_init (period : Z) : ImageTopicHandler :=
  {| period_ns := period;
     writer := None;
     frame_idx := 0;
     next_target_ts_ns := None;
     last_frame_bgr := None;
     video_start_ts := None;
     first_img_seen := false;
     last_source_ts_ns := None;
     csv_header := ["frame_index"; "video_timestamp_ns";
                    "source_timestamp_ns"; "is_repeat"]%string;
     csv_rows := [];
     csv_closes := 0 |}.

(** [x - y] and [x + y] on attributes that may still be [None]. *)
Definition py_sub {St} (x y : option Z) : Prog St Z :=
  match x, y with
  | Some a, Some b => ret (a - b)
  | _, _ => raise TypeError
  end.

Definition py_add {St} (x : option Z) (y : Z) : Prog St Z :=
  match x with
  | Some a => ret (a + y)
  | None => raise TypeError
  end.

(** [self.csv_w.writerow(...)] *)
Definition csv_writerow (r : Row) : Prog ImageTopicHandler unit :=
  h <- get ;;
  match csv_closes h with
  | O => modify (set_csv_rows (csv_rows h ++ [r]))
  | S _ => raise ValueError
  end.

Section Handler.

Variable cv2 : Cv2.

Definition init_writer_if_needed (sample_bgr : Image)
  : Prog ImageTopicHandler unit :=
  h <- get ;;
  match writer h with
  | Some _ => ret tt
  | None =>
      let vw := VideoWriter_new cv2 (img_w sample_bgr) (img_h sample_bgr) in
      modify (set_writer (Some vw)) ;;
      if vw_opened vw then ret tt else raise RuntimeError
  end.

(** [self.writer.write(img)]; [self.writer] is never [None] here, since
    [init_writer_if_needed] has just run. *)
Definition writer_write (img : Image) : Prog ImageTopicHandler unit :=
  h <- get ;;
  match writer h with
  | None => raise AttributeError
  | Some vw =>
      match VideoWriter_write cv2 img vw with
      | Some vw' => modify (set_writer (Some vw'))
      | None => raise Cv2Error
      end
  end.

(** The [while] loop of [emit_frozen_frames_until], with the local counter
    [emitted] as an accumulator. *)
Fixpoint emit_frozen_loop (fuel : nat) (t_img_ns emitted : Z)
  : Prog ImageTopicHandler Z :=
  h <- get ;;
  match next_target_ts_ns h, last_frame_bgr h with
  | Some nt, Some last =>
      if nt <? t_img_ns then
        match fuel with
        | O => fun _ => Timeout
        | S fuel' =>
            init_writer_if_needed last ;;
            writer_write last ;;
            h <- get ;;
            v <- py_sub (next_target_ts_ns h) (video_start_ts h) ;;
            csv_writerow {| frame_index := frame_idx h;
                            video_timestamp_ns := v;
                            source_timestamp_ns := last_source_ts_ns h;
                            is_repeat := true |} ;;
            modify (fun h => set_frame_idx (frame_idx h + 1) h) ;;
            h <- get ;;
            n <- py_add (next_target_ts_ns h) (period_ns h) ;;
            modify (set_next_target_ts_ns (Some n)) ;;
            emit_frozen_loop fuel' t_img_ns (emitted + 1)
        end
      else ret emitted
  | _, _ => ret emitted
  end.

Definition emit_frozen_frames_until (fuel : nat) (t_img_ns : Z)
  : Prog ImageTopicHandler Z :=
  emit_frozen_loop fuel t_img_ns 0.

(** [handle_msg] from line 124 on, for the raster [img_bgr] that lines
    121-122 decoded. *)
Definition ingest (fuel : nat) (img_bgr : Image) (t_ns : Z)
  : Prog ImageTopicHandler unit :=
  h <- get ;;
  (if first_img_seen h then ret tt
   else
     modify (set_video_start_ts (Some t_ns)) ;;
     modify (fun h => set_next_target_ts_ns (video_start_ts h) h) ;;
     modify (set_first_img_seen true)) ;;
  emit_frozen_frames_until fuel t_ns ;;
  init_writer_if_needed img_bgr ;;
  writer_write img_bgr ;;
  h <- get ;;
  v <- py_sub (Some t_ns) (video_start_ts h) ;;
  csv_writerow {| frame_index := frame_idx h;
                  video_timestamp_ns := v;
                  source_timestamp_ns := Some t_ns;
                  is_repeat := false |} ;;
  modify (fun h => set_frame_idx (frame_idx h + 1) h) ;;
  h <- get ;;
  n <- py_add (next_target_ts_ns h) (period_ns h) ;;
  modify (set_next_target_ts_ns (Some n)) ;;
  modify (set_last_frame_bgr (Some img_bgr)) ;;
  modify (set_last_source_ts_ns (Some t_ns)).

(** [close]; neither call raises. *)
Definition close (h : ImageTopicHandler) : ImageTopicHandler :=
  let h :=
    match writer h with
    | Some vw => set_writer (Some (VideoWriter_release vw)) h
    | None => h
    end in
  set_csv_closes (S (csv_closes h)) h.

(** Successive [handle_msg] calls on decoded frames; an exception ends the
    sequence, as it does in the read loop of [process_bag]. *)
Fixpoint ingest_all (fuel : nat) (frames : list (Image * Z))
  : Prog ImageTopicHandler unit :=
  match frames with
  | [] => ret tt
  | (img, t) :: rest => ingest fuel img t ;; ingest_all fuel rest
  end.

End Handler.

(** ** The other handlers and [process_bag]

    Bag decoding and deserialisation are outside the script: the reader is the
    list of records it yields, already deserialised.  A message is seen
    through the three things the handlers do with it. *)

Inductive Cell : Set := CInt (n : Z) | CStr (s : string).

Record Attr : Set := {
  attr_value : string;             (* the attribute as csv.writer prints it *)
  attr_callable : bool
}.

Record Msg : Set := {
  msg_attrs : list (string * Attr);                    (* dir(msg), getattr *)
  msg_status : option (list (list (string * string))); (* status[i].values *)
  msg_image : option Image         (* imgmsg_to_cv2 then cvtColor, lines 121-122 *)
}.

Record BagRecord : Set := { rec_topic : string; rec_data : Msg; rec_t : Z }.

Record TopicHandlerCsv : Set := {
  columns : list string;           (* also the header row *)
  out_rows : list (list Cell)
}.

Inductive Handler : Set :=
| HTopicCsv (c : TopicHandlerCsv)
| HDiagnosticArray (c : TopicHandlerCsv)
| HImageTopic (h : ImageTopicHandler).

Definition NAV_SAT_FIX : string := "sensor_msgs/msg/NavSatFix".
Definition DIAGNOSTICS : string := "diagnostic_msgs/msg/DiagnosticArray".
Definition NETWORK_METRICS : string :=
  "tod_network_monitoring_msgs/msg/NetworkMetrics".
Definition IMAGE : string := "sensor_msgs/msg/Image".
Definition TARGET_FPS : Z := 40.
Definition PROCESS_IMAGES : bool := true.

(** [int(round(1e9 / target_fps))] for a positive integer rate, on the exact
    quotient, with Python's round-half-to-even.  [1e9 / 40] is exact in
    binary64, so this is the period [process_bag] runs with. *)
Definition period_ns_of_fps (target_fps : Z) : Z :=
  let q := 1000000000 `div` target_fps in
  let r := 1000000000 `mod` target_fps in
  if 2 * r <? target_fps then q
  else if target_fps <? 2 * r then q + 1
  else if Z.even q then q else q + 1.

Fixpoint lookup_attr (attrs : list (string * Attr)) (field : string)
  : option Attr :=
  match attrs with
  | [] => None
  | (name, a) :: rest =>
      if String.eqb name field then Some a else lookup_attr rest field
  end.

(** [getattr(msg, field)] where [hasattr(msg, field)]. *)
Definition getattr (msg : Msg) (field : string) : option Attr :=
  lookup_attr (msg_attrs msg) field.

Definition TopicHandlerCsv_handle_msg (msg : Msg) (t_ns : Z)
  : Prog TopicHandlerCsv unit :=
  modify (fun c =>
    let cell field :=
      if String.eqb field "timestamp" then CInt t_ns
      else match getattr msg field with
           | Some a => CStr (attr_value a)
           | None => CStr EmptyString
           end in
    {| columns := columns c;
       out_rows := out_rows c ++ [cell <$> columns c] |}).

Definition is_ascii_upper (a : ascii) : bool :=
  let n := N_of_ascii a in ((65 <=? n) && (n <=? 90))%N.
Definition is_ascii_lower (a : ascii) : bool :=
  let n := N_of_ascii a in ((97 <=? n) && (n <=? 122))%N.

(** [str.isupper]: some cased character, and none of them lower case. *)
Definition isupper (s : string) : bool :=
  existsb is_ascii_upper (list_ascii_of_string s)
  && negb (existsb is_ascii_lower (list_ascii_of_string s)).

Definition startswith_underscore (s : string) : bool :=
  match s with
  | String a _ => Ascii.eqb a "_"
  | EmptyString => false
  end.

Definition TopicHandlerCsv_handler_from_msg (msg : Msg) : TopicHandlerCsv :=
  let fields :=
    filter (fun a => negb (startswith_underscore a.1) && negb (isupper a.1)
                     && negb (attr_callable a.2) = true) (msg_attrs msg) in
  {| columns := "timestamp"%string :: (fst <$> fields); out_rows := [] |}.

(** [kv_dict] of [DiagnosticArrayHandler.handle_msg]: later pairs overwrite
    earlier ones, and a key called "timestamp" overwrites the time. *)
Definition diagnostic_kv_dict (status : list (list (string * string)))
    (t_ns : Z) : gmap string Cell :=
  foldl (fun d kv => <[kv.1 := CStr kv.2]> d)
        {[ "timestamp"%string := CInt t_ns ]} (concat status).

Definition DiagnosticArrayHandler_handle_msg (msg : Msg) (t_ns : Z)
  : Prog TopicHandlerCsv unit :=
  match msg_status msg with
  | None => raise AttributeError
  | Some status =>
      let kv_dict := diagnostic_kv_dict status t_ns in
      modify (fun c =>
        {| columns := columns c;
           out_rows := out_rows c
             ++ [(fun col => default (CStr EmptyString) (kv_dict !! col))
                   <$> columns c] |})
  end.

Definition DiagnosticArrayHandler_handler_from_msg (msg : Msg)
  : option TopicHandlerCsv :=
  status ← msg_status msg;
  let keys := remove_dups (fst <$> concat status) in
  Some {| columns := "timestamp"%string
                       :: merge_sort (fun a b => Is_true (String.leb a b)) keys;
          out_rows := [] |}.

Section ProcessBag.

Variable cv2 : Cv2.

(** [ImageTopicHandler.handle_msg] *)
Definition handle_msg (fuel : nat) (msg : Msg) (t_ns : Z)
  : Prog ImageTopicHandler unit :=
  match msg_image msg with
  | None => raise CvBridgeError
  | Some img_bgr => ingest cv2 fuel img_bgr t_ns
  end.

(** Run a method on one variant of [Handler]. *)
Definition on_variant {A B} (inj : A -> Handler) (c : Prog A B) (a : A)
  : Res Handler B :=
  match c a with
  | Ret b a' => Ret b (inj a')
  | Raise e a' => Raise e (inj a')
  | Timeout => Timeout
  end.

(** [handler.handle_msg(msg, t)], dispatched on the handler's class. *)
Definition Handler_handle_msg (fuel : nat) (msg : Msg) (t_ns : Z)
  : Prog Handler unit :=
  fun hd =>
    match hd with
    | HTopicCsv c => on_variant HTopicCsv (TopicHandlerCsv_handle_msg msg t_ns) c
    | HDiagnosticArray c =>
        on_variant HDiagnosticArray (DiagnosticArrayHandler_handle_msg msg t_ns) c
    | HImageTopic h => on_variant HImageTopic (handle_msg fuel msg t_ns) h
    end.

(** [handlers[topic].m(...)]: the object in the dict is the one mutated. *)
Definition at_topic {A} (topic : string) (c : Prog Handler A)
  : Prog (gmap string Handler) A :=
  fun handlers =>
    match handlers !! topic with
    | None => Raise KeyError handlers
    | Some hd =>
        match c hd with
        | Ret a hd' => Ret a (<[topic := hd']> handlers)
        | Raise e hd' => Raise e (<[topic := hd']> handlers)
        | Timeout => Timeout
        end
    end.

(** Lines 178-184: the handler for a topic seen for the first time. *)
Definition new_handler (ty : string) (msg : Msg) : Prog (gmap string Handler) Handler :=
  if PROCESS_IMAGES && String.eqb ty IMAGE then
    ret (HImageTopic (ImageTopicHandler_init (period_ns_of_fps TARGET_FPS)))
  else if String.eqb ty DIAGNOSTICS then
    match DiagnosticArrayHandler_handler_from_msg msg with
    | Some c => ret (HDiagnosticArray c)
    | None => raise AttributeError
    end
  else ret (HTopicCsv (TopicHandlerCsv_handler_from_msg msg)).

(** The [while reader.has_next()] loop, lines 170-186. *)
Fixpoint read_loop (fuel : nat) (topics : gmap string string)
    (records : list BagRecord) : Prog (gmap string Handler) unit :=
  match records with
  | [] => ret tt
  | r :: rest =>
      match topics !! rec_topic r with
      | None => raise KeyError
      | Some ty =>
          if String.eqb ty IMAGE && negb PROCESS_IMAGES then
            read_loop fuel topics rest
          else
            handlers <- get ;;
            match handlers !! rec_topic r with
            | Some _ => ret tt
            | None =>
                hd <- new_handler ty (rec_data r) ;;
                modify (insert (rec_topic r) hd)
            end ;;
            at_topic (rec_topic r)
                     (Handler_handle_msg fuel (rec_data r) (rec_t r)) ;;
            read_loop fuel topics rest
      end
  end.

(** Lines 188-190. *)
Definition close_image_handler (hd : Handler) : Handler :=
  match hd with
  | HImageTopic h => HImageTopic (close h)
  | _ => hd
  end.

(** [process_bag], for the topic table of [metadata.yaml] and the records
    the reader yields; the state is the local dict [handlers]. *)
Definition process_bag (fuel : nat) (topics : gmap string string)
    (records : list BagRecord) : Res (gmap string Handler) unit :=
  (read_loop fuel topics records ;;
   modify (fmap close_image_handler)) ∅.

End ProcessBag.

(** * Vocabulary of the properties

    The shapes the proofs below speak of: what a pass through the sink does,
    the rows a call writes, the invariants of the handler and of the dict of
    handlers, and the inputs of the worked examples. *)

(** ** The sink and the steps of a call *)

(** What [init_writer_if_needed img; writer.write(img)] does to the [writer]
    attribute, and the exception it ends in, if any. *)
Definition push_frame (cv2 : Cv2) (img : Image) (w : option VideoWriter)
  : option VideoWriter * option Exn :=
  let write vw :=
    match VideoWriter_write cv2 img vw with
    | Some vw' => (Some vw', None)
    | None => (Some vw, Some Cv2Error)
    end in
  match w with
  | Some vw => write vw
  | None =>
      let vw := VideoWriter_new cv2 (img_w img) (img_h img) in
      if vw_opened vw then write vw else (Some vw, Some RuntimeError)
  end.

(** Lines 124-127. *)
Definition start_clock (t : Z) (h : ImageTopicHandler) : ImageTopicHandler :=
  if first_img_seen h then h
  else set_first_img_seen true
         (set_next_target_ts_ns (Some t) (set_video_start_ts (Some t) h)).

(** One round of the loop, once the frame is through the sink. *)
Definition after_repeat (w : option VideoWriter) (nt st : Z)
    (h : ImageTopicHandler) : ImageTopicHandler :=
  set_next_target_ts_ns (Some (nt + period_ns h))
    (set_frame_idx (frame_idx h + 1)
       (set_csv_rows
          (csv_rows h ++ [ {| frame_index := frame_idx h;
                              video_timestamp_ns := nt - st;
                              source_timestamp_ns := last_source_ts_ns h;
                              is_repeat := true |} ])
          (set_writer w h))).

(** The row of a real frame. *)
Definition real_row (idx v t : Z) : Row :=
  {| frame_index := idx; video_timestamp_ns := v;
     source_timestamp_ns := Some t; is_repeat := false |}.

(** Lines 135-142, once the frame is through the sink. *)
Definition after_real (w : option VideoWriter) (img : Image) (t nt st : Z)
    (h : ImageTopicHandler) : ImageTopicHandler :=
  set_last_source_ts_ns (Some t)
    (set_last_frame_bgr (Some img)
       (set_next_target_ts_ns (Some (nt + period_ns h))
          (set_frame_idx (frame_idx h + 1)
             (set_csv_rows (csv_rows h ++ [real_row (frame_idx h) (t - st) t])
                (set_writer w h))))).

(** The rows [k] rounds of the gap-filling loop write, starting at frame
    index [idx] and tick [nt]. *)
Fixpoint repeat_rows (k : nat) (idx nt st : Z) (src : option Z) (p : Z)
  : list Row :=
  match k with
  | O => []
  | S k' =>
      {| frame_index := idx; video_timestamp_ns := nt - st;
         source_timestamp_ns := src; is_repeat := true |}
      :: repeat_rows k' (idx + 1) (nt + p) st src p
  end.

(** The rows a returning call adds: [k] repeats and the real frame. *)
Definition call_rows (k : nat) (t nt st : Z) (h : ImageTopicHandler)
  : list Row :=
  repeat_rows k (frame_idx h) nt st (last_source_ts_ns h) (period_ns h)
  ++ [real_row (frame_idx h + Z.of_nat k) (t - st) t].

(** [h'] is [h] after [n] emissions that wrote the rows [new], the clock
    having stood at [nt]. *)
Record advanced (n : nat) (new : list Row) (nt : Z)
    (h h' : ImageTopicHandler) : Prop := {
  adv_period : period_ns h' = period_ns h;
  adv_idx : frame_idx h' = frame_idx h + Z.of_nat n;
  adv_next : next_target_ts_ns h' = Some (nt + Z.of_nat n * period_ns h);
  adv_header : csv_header h' = csv_header h;
  adv_rows : csv_rows h' = csv_rows h ++ new;
  adv_closes : csv_closes h' = csv_closes h
}.

(** The attributes the gap-filling loop leaves alone. *)
Record kept (h h' : ImageTopicHandler) : Prop := {
  kept_start : video_start_ts h' = video_start_ts h;
  kept_seen : first_img_seen h' = first_img_seen h;
  kept_frame : last_frame_bgr h' = last_frame_bgr h;
  kept_source : last_source_ts_ns h' = last_source_ts_ns h
}.

(** Each of the [k] rounds passed the loop test. *)
Definition ticks_before (k : nat) (nt p t : Z) : Prop :=
  forall i : nat, (i < k)%nat -> nt + Z.of_nat i * p < t.

(** ** Invariants of the handler *)

(** A repeat sits on the tick of its index; a real frame sits at its own
    offset from the start, not later than that tick. *)
Definition row_ok (p st : Z) (r : Row) : Prop :=
  if is_repeat r
  then video_timestamp_ns r = frame_index r * p
  else source_timestamp_ns r = Some (video_timestamp_ns r + st)
       /\ video_timestamp_ns r <= frame_index r * p.

(** [settled p h] holds of every state a sequence of calls can end in,
    whether the last call returned or raised. *)
Record settled (p : Z) (h : ImageTopicHandler) : Prop := {
  se_period : period_ns h = p;
  se_closes : csv_closes h = 0%nat;
  se_idx : frame_idx h = Z.of_nat (length (csv_rows h));
  se_index : frame_index <$> csv_rows h = seqZ 0 (Z.of_nat (length (csv_rows h)));
  se_unseen : first_img_seen h = false -> csv_rows h = [];
  se_last : last_frame_bgr h = None <-> csv_rows h = [];
  se_clock : first_img_seen h = true ->
             exists st, video_start_ts h = Some st /\
                        next_target_ts_ns h = Some (st + frame_idx h * p) /\
                        Forall (row_ok p st) (csv_rows h) /\
                        (forall r, head (csv_rows h) = Some r ->
                                   video_timestamp_ns r = 0 /\ is_repeat r = false)
}.

(** [steady p h] holds between calls: on top of [settled], a started clock
    has a last frame, and the clock is at least one period past it. *)
Record steady (p : Z) (h : ImageTopicHandler) : Prop := {
  st_settled : settled p h;
  st_started : first_img_seen h = true ->
               exists st ts, video_start_ts h = Some st /\
                             last_source_ts_ns h = Some ts /\
                             last_frame_bgr h <> None /\
                             ts + p <= st + frame_idx h * p
}.

(** Each element is at most the next. *)
Fixpoint nondecreasing (l : list Z) : bool :=
  match l with
  | x :: (y :: _) as tl => (x <=? y) && nondecreasing tl
  | _ => true
  end.

(** Non-decreasing, and bounded by [b]. *)
Definition sorted_upto (l : list Z) (b : Z) : Prop :=
  nondecreasing l = true /\ Forall (fun x => x <= b) l.

(** Between calls the video timestamps written so far are in order and
    none is past the last frame. *)
Definition ordered (h : ImageTopicHandler) : Prop :=
  forall st ts, video_start_ts h = Some st -> last_source_ts_ns h = Some ts ->
                sorted_upto (video_timestamp_ns <$> csv_rows h) (ts - st).

(** The frame at [t] does not come before the last one. *)
Definition due (h : ImageTopicHandler) (t : Z) : Prop :=
  forall ts, last_source_ts_ns h = Some ts -> ts <= t.

(** An upper bound of the times in [ts]. *)
Fixpoint latest (ts : list Z) : Z :=
  match ts with
  | [] => 0
  | t :: rest => Z.max t (latest rest)
  end.

(** Gap-filling for a frame at [t] takes fewer than [(t - t0) / p + 1]
    rounds, [t0] being the time of the first frame. *)
Definition enough_fuel (p : Z) (frames : list (Image * Z)) : nat :=
  match frames with
  | [] => 0%nat
  | (_, t0) :: rest => Z.to_nat ((latest (snd <$> rest) - t0) `div` p + 1)
  end.

(** ** Sink and sidecar *)

(** The frames the sink holds, in order. *)
Definition sink_frames (h : ImageTopicHandler) : list Image :=
  match writer h with
  | Some vw => vw_frames vw
  | None => []
  end.

(** The sink takes frames of [w] by [hh]: such a writer opens, the writer, if
    there is one, is open with that geometry, and so is the frame held for
    repeats. *)
Record sink_ready (cv2 : Cv2) (w hh : Z) (h : ImageTopicHandler) : Prop := {
  sr_opens : cv2_opens cv2 w hh = true;
  sr_writer : forall vw, writer h = Some vw ->
                         vw_opened vw = true /\ vw_w vw = w /\ vw_h vw = hh;
  sr_last : forall img, last_frame_bgr h = Some img ->
                        img_w img = w /\ img_h img = hh
}.

(** Frame [i] of the video and row [i] of the sidecar belong together: the
    row names the source time of a frame that was fed with these pixels. *)
Definition matches (fed : list (Image * Z)) (img : Image) (r : Row) : Prop :=
  exists t, source_timestamp_ns r = Some t /\ (img, t) ∈ fed.

(** The sink and the sidecar agree, and the frame held for repeats is one
    that was fed. *)
Record synced (fed : list (Image * Z)) (h : ImageTopicHandler) : Prop := {
  sy_pairs : Forall2 (matches fed) (sink_frames h) (csv_rows h);
  sy_last : forall img, last_frame_bgr h = Some img ->
                        exists t, last_source_ts_ns h = Some t /\ (img, t) ∈ fed
}.

(** No [release()] yet on the writer, if there is one. *)
Definition unreleased (w : option VideoWriter) : Prop :=
  forall vw, w = Some vw -> vw_releases vw = 0%nat.

(** ** The dict of handlers *)

(** The period [process_bag] builds its image handlers with. *)
Definition bag_period : Z := period_ns_of_fps TARGET_FPS.

(** Between two records: the class of each handler follows the type of its
    topic, and each image handler is steady and unreleased. *)
Definition bag_ok (topics : gmap string string) (hs : gmap string Handler)
  : Prop :=
  forall topic hd,
    hs !! topic = Some hd ->
    match hd with
    | HImageTopic h =>
        topics !! topic = Some IMAGE /\ steady bag_period h /\
        unreleased (writer h)
    | _ => topics !! topic <> Some IMAGE
    end.

(** No image handler has been closed. *)
Definition bag_open (hs : gmap string Handler) : Prop :=
  forall topic h,
    hs !! topic = Some (HImageTopic h) ->
    csv_closes h = 0%nat /\ unreleased (writer h).

(** The handler a topic has, or the fresh one line 180 would make. *)
Definition handler_for (hs : gmap string Handler) (topic : string)
  : ImageTopicHandler :=
  match hs !! topic with
  | Some (HImageTopic h) => h
  | _ => ImageTopicHandler_init bag_period
  end.

(** The exception a run ended in. *)
Definition raised {St A} (r : Res St A) : option Exn :=
  match r with
  | Raise e _ => Some e
  | _ => None
  end.

(** The image handler a run left for a topic. *)
Definition image_handler_of (topic : string)
    (r : Res (gmap string Handler) unit) : option ImageTopicHandler :=
  hs ← final r;
  hd ← hs !! topic;
  match hd with
  | HImageTopic h => Some h
  | _ => None
  end.

(** Whether the writer of a handler is open, and how often it was released. *)
Definition writer_state (h : ImageTopicHandler) : option (bool * nat) :=
  (fun vw => (vw_opened vw, vw_releases vw)) <$> writer h.

(** An image message, by what lines 121-122 make of it. *)
Definition image_msg (img : option Image) : Msg :=
  {| msg_attrs := []; msg_status := None; msg_image := img |}.

(** The records of one image topic whose messages all decode. *)
Definition image_records (topic : string) (frames : list (Image * Z))
  : list BagRecord :=
  (fun f => {| rec_topic := topic; rec_data := image_msg (Some f.1);
               rec_t := f.2 |}) <$> frames.

(** ** Inputs of the worked examples *)

(** A sink that opens for every geometry and drops a frame of another
    geometry without an error, as the FFmpeg backend of OpenCV does. *)
Definition ffmpeg : Cv2 :=
  {| cv2_opens := fun _ _ => true; cv2_mismatch := MismatchDrops |}.

(** A sink that raises on a frame of another geometry. *)
Definition strict_sink : Cv2 :=
  {| cv2_opens := fun _ _ => true; cv2_mismatch := MismatchRaises |}.

(** Milliseconds, in nanoseconds. *)
Definition ms (n : Z) : Z := n * 1000000.

(** A [w] by [h] raster, told apart by [tag]. *)
Definition raster (w h : Z) (tag : Z) : Image :=
  {| img_h := h; img_w := w; img_data := [tag] |}.

(** The handler after a run, for concrete inputs. *)
Definition state_after (cv2 : Cv2) (fuel : nat) (p : Z)
    (frames : list (Image * Z)) : ImageTopicHandler :=
  match ingest_all cv2 fuel frames (ImageTopicHandler_init p) with
  | Ret _ h | Raise _ h => h
  | Timeout => ImageTopicHandler_init p
  end.

(** The example of the spec: two frames, 250 ms apart, at 10 frames per
    second. *)
Definition two_frames : list (Image * Z) :=
  [(raster 2 2 1, ms 0); (raster 2 2 2, ms 250)].

(** Three frames 10 ms apart. *)
Definition burst : list (Image * Z) :=
  [(raster 2 2 1, ms 0); (raster 2 2 2, ms 10); (raster 2 2 3, ms 20)].

(** Two frames with one timestamp. *)
Definition twins : list (Image * Z) :=
  [(raster 2 2 1, ms 7); (raster 2 2 2, ms 7)].

(** A 2 by 2 frame, then a 3 by 3 one. *)
Definition odd_one_out : list (Image * Z) :=
  [(raster 2 2 1, ms 0); (raster 3 3 2, ms 10)].

(** A bag with one image topic. *)
Definition camera : string := "/camera/image_raw".

Definition camera_topics : gmap string string := {[ camera := IMAGE ]}.

Definition camera_record (img : option Image) (t : Z) : BagRecord :=
  {| rec_topic := camera; rec_data := image_msg img; rec_t := t |}.

(** Records of the camera topic: two that decode and one that does not. *)
Definition good_frame : BagRecord := camera_record (Some (raster 2 2 1)) (ms 0).

Definition bad_frame : BagRecord := camera_record None (ms 10).

Definition late_frame : BagRecord := camera_record (Some (raster 2 2 2)) (ms 20).

(** ** Further vocabulary *)

(** The repeats due before a frame at [t] when the clock stands at [nt]: the
    quotient [(t - nt) / p] rounded up, and none when the clock is not
    behind. *)
Definition repeats_due (nt p t : Z) : Z :=
  Z.max 0 ((t - nt + p - 1) `div` p).

(** The source timestamps of the real rows, in order. *)
Definition real_sources (rows : list Row) : list (option Z) :=
  source_timestamp_ns <$> filter (fun r => is_repeat r = false) rows.

(** Each time is at least one period after the one before. *)
Fixpoint spaced (p : Z) (l : list Z) : bool :=
  match l with
  | x :: (y :: _) as tl => (x + p <=? y) && spaced p tl
  | _ => true
  end.

(** Every repeat comes after a row that names the same source frame. *)
Definition held (rows : list Row) : Prop :=
  forall (i : nat) r,
    rows !! S i = Some r -> is_repeat r = true ->
    exists r', rows !! i = Some r' /\
               source_timestamp_ns r' = source_timestamp_ns r.

(** The row is stamped after the tick before its own. *)
Definition prompt (p : Z) (r : Row) : Prop :=
  (frame_index r - 1) * p < video_timestamp_ns r.


(** The clock is less than two periods past the last source frame. *)
Definition paced (p : Z) (h : ImageTopicHandler) : Prop :=
  forall st ts,
    video_start_ts h = Some st -> last_source_ts_ns h = Some ts ->
    st + frame_idx h * p < ts + 2 * p.

(** ** Vocabulary of the csv handlers *)

(** The attributes [TopicHandlerCsv.handler_from_msg] makes columns of, in
    the order of [dir(msg)]. *)
Definition public_fields (msg : Msg) : list (string * Attr) :=
  filter (fun a => negb (startswith_underscore a.1) && negb (isupper a.1)
                   && negb (attr_callable a.2) = true) (msg_attrs msg).

(** The cell of a public field in the row of the message it comes from. *)
Definition own_cell (t_ns : Z) (a : string * Attr) : Cell :=
  if String.eqb a.1 "timestamp" then CInt t_ns else CStr (attr_value a.2).


(** The value of the last pair with key [k]. *)
Definition last_value (k : string) (kvs : list (string * string))
  : option string :=
  last (snd <$> filter (fun kv => kv.1 = k) kvs).

(** A diagnostic cell: the last value given for the column in any status of
    the message; failing that, the bag time in a column called "timestamp",
    and the empty string elsewhere. *)
Definition diagnostic_cell (status : list (list (string * string))) (t_ns : Z)
    (col : string) : Cell :=
  match last_value col (concat status) with
  | Some v => CStr v
  | None => if String.eqb col "timestamp" then CInt t_ns else CStr EmptyString
  end.

(** The order [sorted] puts keys in. *)
Definition key_le (a b : string) : Prop := Is_true (String.leb a b).

(** ** Vocabulary of the read loop *)

(** The records of one topic, in bag order. *)
Definition of_topic (topic : string) (records : list BagRecord)
  : list BagRecord :=
  filter (fun r => rec_topic r = topic) records.

(** Successive [handle_msg] calls on one handler, for the records of its
    topic; an exception ends the sequence. *)
Fixpoint handle_all (cv2 : Cv2) (fuel : nat) (records : list BagRecord)
  : Prog Handler unit :=
  match records with
  | [] => ret tt
  | r :: rest =>
      Handler_handle_msg cv2 fuel (rec_data r) (rec_t r) ;;
      handle_all cv2 fuel rest
  end.

(** The class of a handler is the one lines 179-184 choose for the type. *)
Definition class_fits (ty : string) (hd : Handler) : Prop :=
  match hd with
  | HImageTopic _ => ty = IMAGE
  | HDiagnosticArray _ => ty = DIAGNOSTICS
  | HTopicCsv _ => ty <> IMAGE /\ ty <> DIAGNOSTICS
  end.



(** The dict of handlers a run ended with. *)
Definition handlers_after (r : Res (gmap string Handler) unit)
  : gmap string Handler :=
  default ∅ (final r).

(** ** Messages of the worked examples *)

Definition field (v : string) : Attr :=
  {| attr_value := v; attr_callable := false |}.

Definition method : Attr :=
  {| attr_value := "<bound method>"; attr_callable := true |}.

(** A position fix, by its [dir]: a constant, a private slot, a method and
    three fields, one of them called "timestamp". *)
Definition fix_msg (lat : string) : Msg :=
  {| msg_attrs := [("STATUS_FIX", field "0"); ("_latitude", field lat);
                   ("get_fields_and_field_types", method);
                   ("latitude", field lat); ("longitude", field "11.57");
                   ("timestamp", field "17")]%string;
     msg_status := None; msg_image := None |}.

(** A diagnostic array, by the key-value pairs of its statuses. *)
Definition diag_msg (status : list (list (string * string))) : Msg :=
  {| msg_attrs := []; msg_status := Some status; msg_image := None |}.

Definition network_status : list (list (string * string)) :=
  [[("rssi", "-60"); ("bitrate", "12")]; [("rssi", "-71")]]%string.

(** A bag with three topics: a camera, a diagnostic array and a position
    fix, their records interleaved. *)
Definition gps : string := "/gps/fix".

Definition diagnostics : string := "/diagnostics".

Definition bag_topics : gmap string string :=
  {[ camera := IMAGE; diagnostics := DIAGNOSTICS; gps := NAV_SAT_FIX ]}.

Definition mixed_bag : list BagRecord :=
  [ {| rec_topic := gps; rec_data := fix_msg "48.15"; rec_t := ms 1 |};
    good_frame;
    {| rec_topic := diagnostics; rec_data := diag_msg network_status;
       rec_t := ms 2 |};
    {| rec_topic := gps; rec_data := fix_msg "48.16"; rec_t := ms 3 |};
    camera_record (Some (raster 2 2 2)) (ms 10);
    {| rec_topic := diagnostics;
       rec_data := diag_msg [[("snr", "9"); ("rssi", "-64")]]%string;
       rec_t := ms 12 |} ].


(** * Properties *)

(** ** One pass through the sink *)

Lemma advanced_refl h nt :
  next_target_ts_ns h = Some nt -> advanced 0 [] nt h h.
Proof.
  intros Hnt. split; rewrite ?app_nil_r, ?Hnt; try reflexivity.
  - cbn. lia.
  - f_equal. cbn. lia.
Qed.

Lemma kept_refl h : kept h h.
Proof. split; reflexivity. Qed.

Section HandlerFacts.

Variable cv2 : Cv2.

Lemma push_frame_bind {B} (img : Image) (k : Prog ImageTopicHandler B) h :
  (init_writer_if_needed cv2 img ;; writer_write cv2 img ;; k) h =
  match push_frame cv2 img (writer h) with
  | (w, None) => k (set_writer w h)
  | (w, Some e) => Raise e (set_writer w h)
  end.
Proof.
  destruct h as [p w i nt lf vs seen ls hd rows cl].
  unfold push_frame, init_writer_if_needed, writer_write, bind, get, modify, ret, raise.
  cbn. destruct w as [vw|]; cbn.
  - destruct (VideoWriter_write cv2 img vw); reflexivity.
  - destruct (cv2_opens cv2 (img_w img) (img_h img)) eqn:Ho; cbn; [|reflexivity].
    destruct (VideoWriter_write cv2 img _); reflexivity.
Qed.

(** ** The gap-filling loop *)

Lemma emit_frozen_loop_eq fuel t e h :
  emit_frozen_loop cv2 fuel t e h =
  match next_target_ts_ns h, last_frame_bgr h with
  | Some nt, Some last =>
      if nt <? t then
        match fuel with
        | O => Timeout
        | S fuel' =>
            (init_writer_if_needed cv2 last ;;
             writer_write cv2 last ;;
             h <- get ;;
             v <- py_sub (next_target_ts_ns h) (video_start_ts h) ;;
             csv_writerow {| frame_index := frame_idx h;
                             video_timestamp_ns := v;
                             source_timestamp_ns := last_source_ts_ns h;
                             is_repeat := true |} ;;
             modify (fun h => set_frame_idx (frame_idx h + 1) h) ;;
             h <- get ;;
             n <- py_add (next_target_ts_ns h) (period_ns h) ;;
             modify (set_next_target_ts_ns (Some n)) ;;
             emit_frozen_loop cv2 fuel' t (e + 1)) h
        end
      else Ret e h
  | _, _ => Ret e h
  end.
Proof.
  destruct fuel; cbn; unfold bind, get, ret;
    destruct (next_target_ts_ns h), (last_frame_bgr h); try reflexivity;
    destruct (_ <? _); reflexivity.
Qed.

Lemma repeat_round {B} (k : Prog ImageTopicHandler B) w h nt st :
  next_target_ts_ns h = Some nt ->
  video_start_ts h = Some st ->
  csv_closes h = 0%nat ->
  (h <- get ;;
   v <- py_sub (next_target_ts_ns h) (video_start_ts h) ;;
   csv_writerow {| frame_index := frame_idx h;
                   video_timestamp_ns := v;
                   source_timestamp_ns := last_source_ts_ns h;
                   is_repeat := true |} ;;
   modify (fun h => set_frame_idx (frame_idx h + 1) h) ;;
   h <- get ;;
   n <- py_add (next_target_ts_ns h) (period_ns h) ;;
   modify (set_next_target_ts_ns (Some n)) ;;
   k) (set_writer w h)
  = k (after_repeat w nt st h).
Proof.
  destruct h as [p w0 i nt0 lf vs seen ls hd rows cl]; cbn.
  intros -> -> ->. reflexivity.
Qed.

Lemma advanced_after_repeat w h nt st :
  advanced 1 (repeat_rows 1 (frame_idx h) nt st (last_source_ts_ns h)
                          (period_ns h)) nt h (after_repeat w nt st h).
Proof.
  split; cbn; try reflexivity. f_equal. lia.
Qed.

Lemma advanced_trans n m new new' nt h h1 h2 :
  advanced n new nt h h1 ->
  advanced m new' (nt + Z.of_nat n * period_ns h) h1 h2 ->
  advanced (n + m) (new ++ new') nt h h2.
Proof.
  intros [Hp Hi Hn Hh Hr Hc] [Hp' Hi' Hn' Hh' Hr' Hc'].
  split; try congruence.
  - rewrite Hi', Hi. lia.
  - rewrite Hn', Hp. f_equal. lia.
  - rewrite Hr', Hr, app_assoc. reflexivity.
Qed.

Lemma kept_trans h h1 h2 : kept h h1 -> kept h1 h2 -> kept h h2.
Proof. intros [] []. split; congruence. Qed.

Lemma kept_set_writer w h : kept h (set_writer w h).
Proof. split; reflexivity. Qed.

Lemma advanced_set_writer w h nt :
  next_target_ts_ns h = Some nt -> advanced 0 [] nt h (set_writer w h).
Proof.
  intros Hnt. split; cbn; rewrite ?app_nil_r, ?Hnt; try reflexivity.
  - lia.
  - f_equal. lia.
Qed.

Lemma ticks_before_0 nt p t : ticks_before 0 nt p t.
Proof. intros i Hi. lia. Qed.

Lemma ticks_before_S k nt p t :
  nt < t -> ticks_before k (nt + p) p t -> ticks_before (S k) nt p t.
Proof.
  intros Hlt Hk [|i] Hi.
  - cbn. lia.
  - specialize (Hk i ltac:(lia)). lia.
Qed.

Lemma loop_spec fuel t :
  forall e h nt st,
    next_target_ts_ns h = Some nt ->
    video_start_ts h = Some st ->
    csv_closes h = 0%nat ->
    match emit_frozen_loop cv2 fuel t e h with
    | Ret e' h' =>
        exists k : nat,
          e' = e + Z.of_nat k /\
          advanced k (repeat_rows k (frame_idx h) nt st (last_source_ts_ns h)
                                  (period_ns h)) nt h h' /\
          kept h h' /\ ticks_before k nt (period_ns h) t /\
          (last_frame_bgr h = None -> k = 0%nat) /\
          (last_frame_bgr h <> None -> t <= nt + Z.of_nat k * period_ns h)
    | Raise _ h' =>
        exists k : nat,
          advanced k (repeat_rows k (frame_idx h) nt st (last_source_ts_ns h)
                                  (period_ns h)) nt h h' /\
          kept h h' /\ ticks_before k nt (period_ns h) t /\
          (last_frame_bgr h = None -> k = 0%nat)
    | Timeout => nt < t /\ (period_ns h <= 0 \/ Z.of_nat fuel * period_ns h < t - nt)
    end.
Proof.
  assert (Hexit : forall e h nt st (lf : option Image),
    next_target_ts_ns h = Some nt ->
    lf = None \/ t <= nt ->
    exists k : nat,
      e = e + Z.of_nat k /\
      advanced k (repeat_rows k (frame_idx h) nt st (last_source_ts_ns h)
                              (period_ns h)) nt h h /\
      kept h h /\ ticks_before k nt (period_ns h) t /\
      (lf = None -> k = 0%nat) /\
      (lf <> None -> t <= nt + Z.of_nat k * period_ns h)).
  { intros e h nt st lf Hnt Hc. exists 0%nat.
    split; [cbn; lia|]. split; [apply advanced_refl, Hnt|].
    split; [apply kept_refl|]. split; [apply ticks_before_0|].
    split; [reflexivity|]. intros Hl. destruct Hc; [contradiction|cbn; lia]. }
  induction fuel as [|fuel IH]; intros e h nt st Hnt Hst Hcl;
    rewrite emit_frozen_loop_eq, Hnt.
  - destruct (last_frame_bgr h) as [last|] eqn:Hlast;
      [destruct (Z.ltb_spec nt t) as [Hlt|Hge]; [cbn; lia|]|].
    + apply Hexit; auto.
    + apply Hexit; auto.
  - destruct (last_frame_bgr h) as [last|] eqn:Hlast;
      [destruct (Z.ltb_spec nt t) as [Hlt|Hge]|].
    2, 3: apply Hexit; auto.
    rewrite push_frame_bind.
    destruct (push_frame cv2 last (writer h)) as [w [ex|]].
    + exists 0%nat. split; [apply advanced_set_writer, Hnt|].
      split; [apply kept_set_writer|]. split; [apply ticks_before_0|].
      congruence.
    + rewrite (repeat_round _ w h nt st Hnt Hst Hcl).
      pose proof (advanced_after_repeat w h nt st) as Hadv.
      assert (Hk1 : kept h (after_repeat w nt st h)) by (split; reflexivity).
      specialize (IH (e + 1) (after_repeat w nt st h) (nt + period_ns h) st
                     eq_refl Hst Hcl).
      destruct (emit_frozen_loop cv2 fuel t (e + 1) (after_repeat w nt st h))
        as [e' h'|ex h'|]; [| |cbn in IH; nia].
      * destruct IH as (k & He & Ha & Hk & Ht & _ & Hx).
        exists (S k). split; [lia|].
        split.
        { replace (Z.of_nat 1 * period_ns h) with (period_ns h) in * by lia.
          apply (advanced_trans 1 k _ _ nt h _ h' Hadv).
          replace (nt + Z.of_nat 1 * period_ns h) with (nt + period_ns h) by lia.
          exact Ha. }
        split; [eapply kept_trans; eauto|].
        split; [apply ticks_before_S; assumption|].
        split; [congruence|]. intros _.
        cbn [after_repeat] in Hx.
        assert (last_frame_bgr (after_repeat w nt st h) <> None)
          by (cbn; congruence).
        specialize (Hx H). cbn in Hx. lia.
      * destruct IH as (k & Ha & Hk & Ht & _).
        exists (S k).
        split.
        { apply (advanced_trans 1 k _ _ nt h _ h' Hadv).
          replace (nt + Z.of_nat 1 * period_ns h) with (nt + period_ns h) by lia.
          exact Ha. }
        split; [eapply kept_trans; eauto|].
        split; [apply ticks_before_S; assumption|].
        congruence.
Qed.

(** ** One call of [handle_msg] on a decoded frame *)

Lemma ingest_eq fuel img t h :
  ingest cv2 fuel img t h =
  (e <- emit_frozen_loop cv2 fuel t 0 ;;
   init_writer_if_needed cv2 img ;;
   writer_write cv2 img ;;
   h <- get ;;
   v <- py_sub (Some t) (video_start_ts h) ;;
   csv_writerow {| frame_index := frame_idx h;
                   video_timestamp_ns := v;
                   source_timestamp_ns := Some t;
                   is_repeat := false |} ;;
   modify (fun h => set_frame_idx (frame_idx h + 1) h) ;;
   h <- get ;;
   n <- py_add (next_target_ts_ns h) (period_ns h) ;;
   modify (set_next_target_ts_ns (Some n)) ;;
   modify (set_last_frame_bgr (Some img)) ;;
   modify (set_last_source_ts_ns (Some t))) (start_clock t h).
Proof.
  destruct h as [p w i nt lf vs [] ls hd rows cl]; reflexivity.
Qed.

Lemma real_round w img t h nt st :
  next_target_ts_ns h = Some nt ->
  video_start_ts h = Some st ->
  csv_closes h = 0%nat ->
  (h <- get ;;
   v <- py_sub (Some t) (video_start_ts h) ;;
   csv_writerow {| frame_index := frame_idx h;
                   video_timestamp_ns := v;
                   source_timestamp_ns := Some t;
                   is_repeat := false |} ;;
   modify (fun h => set_frame_idx (frame_idx h + 1) h) ;;
   h <- get ;;
   n <- py_add (next_target_ts_ns h) (period_ns h) ;;
   modify (set_next_target_ts_ns (Some n)) ;;
   modify (set_last_frame_bgr (Some img)) ;;
   modify (set_last_source_ts_ns (Some t))) (set_writer w h)
  = Ret tt (after_real w img t nt st h).
Proof.
  destruct h as [p w0 i nt0 lf vs seen ls hd rows cl]; cbn.
  intros -> -> ->. reflexivity.
Qed.

Lemma advanced_after_real w img t nt st h :
  next_target_ts_ns h = Some nt ->
  advanced 1 [real_row (frame_idx h) (t - st) t] nt h
           (after_real w img t nt st h).
Proof.
  intros Hnt. split; cbn; try reflexivity. f_equal. lia.
Qed.

(** What a call does, from a handler whose csv file is open and whose clock,
    after lines 124-127, stands at [nt] with origin [st]. *)
Lemma ingest_spec fuel img t h nt st :
  next_target_ts_ns (start_clock t h) = Some nt ->
  video_start_ts (start_clock t h) = Some st ->
  csv_closes h = 0%nat ->
  match ingest cv2 fuel img t h with
  | Ret _ h' =>
      exists k : nat,
        advanced (S k)
          (repeat_rows k (frame_idx h) nt st (last_source_ts_ns h) (period_ns h)
           ++ [real_row (frame_idx h + Z.of_nat k) (t - st) t]) nt
          (start_clock t h) h' /\
        first_img_seen h' = true /\ video_start_ts h' = Some st /\
        last_frame_bgr h' = Some img /\ last_source_ts_ns h' = Some t /\
        ticks_before k nt (period_ns h) t /\
        (last_frame_bgr h = None -> k = 0%nat) /\
        (last_frame_bgr h <> None -> t <= nt + Z.of_nat k * period_ns h)
  | Raise _ h' =>
      exists k : nat,
        advanced k
          (repeat_rows k (frame_idx h) nt st (last_source_ts_ns h) (period_ns h))
          nt (start_clock t h) h' /\
        first_img_seen h' = true /\ video_start_ts h' = Some st /\
        last_frame_bgr h' = last_frame_bgr h /\
        last_source_ts_ns h' = last_source_ts_ns h /\
        ticks_before k nt (period_ns h) t /\
        (last_frame_bgr h = None -> k = 0%nat)
  | Timeout => nt < t /\ (period_ns h <= 0 \/ Z.of_nat fuel * period_ns h < t - nt)
  end.
Proof.
  intros Hnt Hst Hcl. rewrite ingest_eq.
  set (h0 := start_clock t h) in *.
  assert (Hsame : period_ns h0 = period_ns h /\ frame_idx h0 = frame_idx h /\
                  last_frame_bgr h0 = last_frame_bgr h /\
                  last_source_ts_ns h0 = last_source_ts_ns h /\
                  csv_closes h0 = csv_closes h /\ first_img_seen h0 = true).
  { unfold h0, start_clock. destruct (first_img_seen h) eqn:Hs; cbn; auto 10. }
  destruct Hsame as (Hp & Hi & Hlf & Hls & Hc0 & Hseen).
  rewrite <- Hp, <- Hi, <- Hlf, <- Hls. rewrite <- Hc0 in Hcl.
  clearbody h0. clear h Hp Hi Hlf Hls Hc0.
  unfold bind at 1.
  pose proof (loop_spec fuel t 0 h0 nt st Hnt Hst Hcl) as Hloop.
  destruct (emit_frozen_loop cv2 fuel t 0 h0) as [e h1|ex h1|]; [| |exact Hloop].
  - destruct Hloop as (k & _ & Ha & Hk & Ht & Hz & Hx).
    rewrite push_frame_bind.
    destruct Ha as [Hp Hi Hn Hh Hr Hc]. destruct Hk as [Ks Kseen Kf Kl].
    destruct (push_frame cv2 img (writer h1)) as [w [ex|]].
    + exists k. cbn. repeat split; try congruence; try assumption.
    + rewrite (real_round w img t h1 (nt + Z.of_nat k * period_ns h0) st);
        try congruence.
      exists k.
      split.
      { split; cbn; try congruence.
        - rewrite Hi. lia.
        - rewrite Hp. f_equal. lia.
        - rewrite Hr, Hi, <- app_assoc. reflexivity. }
      cbn. repeat split; try congruence; assumption.
  - destruct Hloop as (k & Ha & Hk & Ht & Hz).
    destruct Hk as [Ks Kseen Kf Kl].
    exists k. repeat split; try congruence; try assumption; apply Ha.
Qed.

End HandlerFacts.

(** ** The rows of the sidecar *)

Lemma repeat_rows_length k idx nt st src p :
  length (repeat_rows k idx nt st src p) = k.
Proof.
  revert idx nt. induction k as [|k IH]; intros idx nt; cbn; [reflexivity|].
  rewrite IH. reflexivity.
Qed.

Lemma repeat_rows_index k idx nt st src p :
  frame_index <$> repeat_rows k idx nt st src p = seqZ idx (Z.of_nat k).
Proof.
  revert idx nt. induction k as [|k IH]; intros idx nt; [reflexivity|].
  cbn [repeat_rows fmap list_fmap]. rewrite (seqZ_cons idx) by lia.
  cbn [frame_index]. f_equal.
  change (frame_index <$> repeat_rows k (idx + 1) (nt + p) st src p
          = seqZ (Z.succ idx) (Z.pred (Z.of_nat (S k)))).
  rewrite IH. f_equal; lia.
Qed.

Lemma repeat_rows_all_repeat k idx nt st src p :
  Forall (fun r => is_repeat r = true) (repeat_rows k idx nt st src p).
Proof.
  revert idx nt. induction k as [|k IH]; intros idx nt; cbn; constructor;
    [reflexivity|apply IH].
Qed.

Lemma repeat_rows_ok k idx nt st src p :
  nt = st + idx * p -> Forall (row_ok p st) (repeat_rows k idx nt st src p).
Proof.
  revert idx nt. induction k as [|k IH]; intros idx nt Hnt; cbn; constructor.
  - unfold row_ok; cbn. lia.
  - apply IH. lia.
Qed.

Lemma sorted_upto_snoc l b x :
  sorted_upto l b -> b <= x -> sorted_upto (l ++ [x]) x.
Proof.
  intros [Hs Hb] Hx. split.
  - induction l as [|a [|a' l] IH]; [reflexivity| |].
    + cbn. inversion Hb; subst. rewrite andb_true_r. apply Z.leb_le. lia.
    + cbn in Hs |- *. apply andb_true_iff in Hs as [H1 H2].
      rewrite H1. cbn. apply IH; [assumption|]. inversion Hb; assumption.
  - apply Forall_app. split; [|constructor; [lia|constructor]].
    eapply Forall_impl; [exact Hb|]. cbn. intros; lia.
Qed.

Lemma sorted_upto_weaken l b b' : sorted_upto l b -> b <= b' -> sorted_upto l b'.
Proof.
  intros [Hs Hb] Hle. split; [assumption|].
  eapply Forall_impl; [exact Hb|]. cbn. intros; lia.
Qed.

Lemma sorted_upto_repeats k : forall l b idx nt st src p t,
  sorted_upto l b -> b <= nt - st -> 0 <= p -> b <= t - st ->
  ticks_before k nt p t ->
  sorted_upto (l ++ (video_timestamp_ns <$> repeat_rows k idx nt st src p))
              (t - st).
Proof.
  induction k as [|k IH]; intros l b idx nt st src p t Hl Hb Hp Ht Hk.
  - cbn. rewrite app_nil_r. eapply sorted_upto_weaken; eauto.
  - cbn [repeat_rows fmap list_fmap video_timestamp_ns].
    change (l ++ (nt - st)
              :: (video_timestamp_ns <$> repeat_rows k (idx + 1) (nt + p) st src p))
      with (l ++ [nt - st]
              ++ (video_timestamp_ns <$> repeat_rows k (idx + 1) (nt + p) st src p)).
    rewrite app_assoc.
    pose proof (Hk 0%nat ltac:(lia)) as H0. cbn in H0.
    apply (IH _ (nt - st)); try lia.
    + eapply sorted_upto_snoc; eauto.
    + intros i Hi. specialize (Hk (S i) ltac:(lia)). lia.
Qed.

(** ** Invariants of the handler *)

Lemma steady_init p : steady p (ImageTopicHandler_init p).
Proof.
  split; [split|]; cbn; try reflexivity; try discriminate; tauto.
Qed.

Section Invariants.

Variable cv2 : Cv2.

(** The clock [ingest_spec] starts from, in a steady state. *)
Lemma steady_clock p t h :
  steady p h ->
  exists st nt,
    next_target_ts_ns (start_clock t h) = Some nt /\
    video_start_ts (start_clock t h) = Some st /\
    nt = st + frame_idx h * p /\
    (first_img_seen h = false -> st = t /\ csv_rows h = [] /\ frame_idx h = 0 /\
                                 last_frame_bgr h = None) /\
    (first_img_seen h = true -> video_start_ts h = Some st).
Proof.
  intros [Hse Hst]. unfold start_clock.
  destruct (first_img_seen h) eqn:Hseen.
  - destruct (se_clock _ _ Hse Hseen) as (st & Hvs & Hnt & _).
    exists st, (st + frame_idx h * p). repeat split; auto; discriminate.
  - pose proof (se_unseen _ _ Hse Hseen) as Hrows.
    pose proof (se_idx _ _ Hse) as Hidx. rewrite Hrows in Hidx. cbn in Hidx.
    exists t, t. cbn. repeat split; auto; try discriminate.
    + rewrite Hidx. lia.
    + apply (se_last _ _ Hse). assumption.
Qed.

Lemma start_clock_same t h :
  period_ns (start_clock t h) = period_ns h /\
  frame_idx (start_clock t h) = frame_idx h /\
  csv_rows (start_clock t h) = csv_rows h /\
  csv_closes (start_clock t h) = csv_closes h /\
  csv_header (start_clock t h) = csv_header h.
Proof. unfold start_clock. destruct (first_img_seen h); cbn; auto. Qed.

Lemma index_extend (rows new : list Row) (k : nat) :
  frame_index <$> rows = seqZ 0 (Z.of_nat (length rows)) ->
  frame_index <$> new = seqZ (Z.of_nat (length rows)) (Z.of_nat k) ->
  frame_index <$> (rows ++ new)
  = seqZ 0 (Z.of_nat (length (rows ++ new))).
Proof.
  intros Hr Hn.
  assert (length new = k) as Hlen.
  { rewrite <- (length_fmap frame_index), Hn, length_seqZ. lia. }
  rewrite fmap_app, Hr, Hn, length_app, Hlen, Nat2Z.inj_add.
  rewrite seqZ_app by lia. reflexivity.
Qed.

Lemma head_app_l {A} (l l' : list A) : l <> [] -> head (l ++ l') = head l.
Proof. destruct l; [congruence|reflexivity]. Qed.

Lemma call_rows_index k t nt st h :
  frame_index <$> call_rows k t nt st h
  = seqZ (frame_idx h) (Z.of_nat (S k)).
Proof.
  unfold call_rows. rewrite fmap_app, repeat_rows_index, seqZ_S. reflexivity.
Qed.

Theorem ingest_steady p fuel img t h :
  steady p h ->
  match ingest cv2 fuel img t h with
  | Ret _ h' => steady p h'
  | Raise _ h' => settled p h'
  | Timeout => True
  end.
Proof.
  intros Hsteady.
  destruct (steady_clock p t h Hsteady) as (st & nt & Hnt & Hvs & Hnteq & Hfresh & Hold).
  destruct Hsteady as [Hse Hst].
  pose proof (ingest_spec cv2 fuel img t h nt st Hnt Hvs (se_closes _ _ Hse)) as Hspec.
  destruct (start_clock_same t h) as (Ep & Ei & Er & Ec & _).
  pose proof (se_period _ _ Hse) as Hp. pose proof (se_idx _ _ Hse) as Hidx.
  pose proof (se_closes _ _ Hse) as Hcl.
  assert (Hrows_ok : Forall (row_ok p st) (csv_rows h)).
  { destruct (first_img_seen h) eqn:Hseen.
    - destruct (se_clock _ _ Hse Hseen) as (st' & Hvs' & _ & Hok & _).
      rewrite (Hold eq_refl) in Hvs'. injection Hvs' as <-. exact Hok.
    - destruct (Hfresh eq_refl) as (_ & -> & _). constructor. }
  assert (Hhead : csv_rows h <> [] ->
                  forall r, head (csv_rows h) = Some r ->
                            video_timestamp_ns r = 0 /\ is_repeat r = false).
  { intros Hne. destruct (first_img_seen h) eqn:Hseen.
    - destruct (se_clock _ _ Hse Hseen) as (_ & _ & _ & _ & Hh). exact Hh.
    - destruct Hne. apply (se_unseen _ _ Hse Hseen). }
  assert (Hempty : csv_rows h = [] -> st = t /\ frame_idx h = 0).
  { intros Hnil. destruct (first_img_seen h) eqn:Hseen.
    - destruct (Hst eq_refl) as (_ & _ & _ & _ & Hlf & _).
      destruct Hlf. apply (se_last _ _ Hse), Hnil.
    - destruct (Hfresh eq_refl) as (-> & _ & -> & _). auto. }
  destruct (ingest cv2 fuel img t h) as [[] h'|ex h'|]; [| |exact I].
  - destruct Hspec as (k & Ha & Hseen' & Hvs' & Hlf' & Hls' & Ht & Hz & Hx).
    destruct Ha as [Ap Ai An Ah Ar Ac].
    rewrite Ep in Ap, An. rewrite Ei in Ai. rewrite Er in Ar. rewrite Ec in Ac.
    fold (call_rows k t nt st h) in Ar.
    assert (Hreal : t - st <= (frame_idx h + Z.of_nat k) * p).
    { destruct (last_frame_bgr h) eqn:Hlf.
      - specialize (Hx ltac:(congruence)). rewrite Hp in Hx. lia.
      - specialize (Hz eq_refl). subst k.
        destruct Hempty as [-> ->]; [apply (se_last _ _ Hse), Hlf|]. cbn. lia. }
    assert (Hlen : length (csv_rows h') = (length (csv_rows h) + S k)%nat).
    { rewrite Ar, length_app. unfold call_rows.
      rewrite length_app, repeat_rows_length. cbn. lia. }
    split; [split|].
    + congruence.
    + congruence.
    + rewrite Ai, Hlen, Hidx. lia.
    + rewrite Ar. apply (index_extend _ _ (S k)); [apply (se_index _ _ Hse)|].
      rewrite call_rows_index, Hidx. reflexivity.
    + congruence.
    + rewrite Hlf', Ar. split; [discriminate|].
      unfold call_rows. intros Hnil. apply app_eq_nil in Hnil as [_ Hnil].
      apply app_eq_nil in Hnil as [_ Hnil]. discriminate.
    + intros _. exists st. split; [assumption|]. split; [|split].
      * rewrite An, Ai, Hp. f_equal. lia.
      * rewrite Ar. apply Forall_app. split; [assumption|].
        unfold call_rows. apply Forall_app. split.
        -- rewrite Hp. apply repeat_rows_ok. assumption.
        -- constructor; [|constructor]. unfold row_ok; cbn.
           split; [f_equal; lia|assumption].
      * intros r. rewrite Ar. destruct (csv_rows h) as [|r0 rows] eqn:Hrows.
        -- rewrite (Hz (proj2 (se_last _ _ Hse) Hrows)).
           destruct (Hempty eq_refl) as [-> _].
           cbn. intros [= <-]. cbn. split; [lia|reflexivity].
        -- cbn. intros [= <-]. apply (Hhead ltac:(discriminate)). reflexivity.
    + intros _. exists st, t. repeat split; try assumption.
      * congruence.
      * rewrite Ai. lia.
  - destruct Hspec as (k & Ha & Hseen' & Hvs' & Hlf' & Hls' & Ht & Hz).
    destruct Ha as [Ap Ai An Ah Ar Ac].
    rewrite Ep in Ap, An. rewrite Ei in Ai. rewrite Er in Ar. rewrite Ec in Ac.
    split.
    + congruence.
    + congruence.
    + rewrite Ai, Ar, length_app, repeat_rows_length, Hidx. lia.
    + rewrite Ar. apply (index_extend _ _ k); [apply (se_index _ _ Hse)|].
      rewrite repeat_rows_index, Hidx. reflexivity.
    + congruence.
    + rewrite Hlf', Ar. split.
      * intros Hlf. rewrite (Hz Hlf). cbn. rewrite app_nil_r.
        apply (se_last _ _ Hse), Hlf.
      * intros Hnil. apply app_eq_nil in Hnil as [Hnil _].
        apply (se_last _ _ Hse), Hnil.
    + intros _. exists st. split; [assumption|]. split; [|split].
      * rewrite An, Ai, Hp. f_equal. lia.
      * rewrite Ar. apply Forall_app. split; [assumption|].
        rewrite Hp. apply repeat_rows_ok. assumption.
      * intros r. rewrite Ar. destruct (csv_rows h) as [|r0 rows] eqn:Hrows.
        -- rewrite (Hz (proj2 (se_last _ _ Hse) Hrows)). cbn. discriminate.
        -- cbn. intros [= <-]. apply (Hhead ltac:(discriminate)). reflexivity.
Qed.

(** Everything the later proofs use about one call from a steady state. *)
Lemma ingest_step p fuel img t h :
  steady p h ->
  exists st nt,
    nt = st + frame_idx h * p /\
    (first_img_seen h = true -> video_start_ts h = Some st) /\
    (first_img_seen h = false ->
       st = t /\ csv_rows h = [] /\ frame_idx h = 0 /\ last_frame_bgr h = None) /\
    match ingest cv2 fuel img t h with
    | Ret _ h' =>
        steady p h' /\
        exists k : nat,
          csv_rows h' = csv_rows h ++ call_rows k t nt st h /\
          frame_idx h' = frame_idx h + Z.of_nat (S k) /\
          next_target_ts_ns h' = Some (nt + Z.of_nat (S k) * p) /\
          video_start_ts h' = Some st /\ first_img_seen h' = true /\
          last_frame_bgr h' = Some img /\ last_source_ts_ns h' = Some t /\
          ticks_before k nt p t /\
          (last_frame_bgr h = None -> k = 0%nat) /\
          (last_frame_bgr h <> None -> t <= nt + Z.of_nat k * p)
    | Raise _ h' =>
        settled p h' /\
        exists k : nat,
          csv_rows h' = csv_rows h
                        ++ repeat_rows k (frame_idx h) nt st
                                       (last_source_ts_ns h) (period_ns h) /\
          video_start_ts h' = Some st /\
          last_frame_bgr h' = last_frame_bgr h /\
          ticks_before k nt p t /\
          (last_frame_bgr h = None -> k = 0%nat)
    | Timeout => nt < t /\ (p <= 0 \/ Z.of_nat fuel * p < t - nt)
    end.
Proof.
  intros Hsteady.
  destruct (steady_clock p t h Hsteady)
    as (st & nt & Hnt & Hvs & Hnteq & Hfresh & Hold).
  exists st, nt. do 3 (split; [assumption|]).
  pose proof (ingest_steady p fuel img t h Hsteady) as Hinv.
  pose proof (se_period _ _ (st_settled _ _ Hsteady)) as Hp.
  pose proof (ingest_spec cv2 fuel img t h nt st Hnt Hvs
                (se_closes _ _ (st_settled _ _ Hsteady))) as Hspec.
  destruct (start_clock_same t h) as (Ep & Ei & Er & Ec & _).
  rewrite Hp in Hspec.
  destruct (ingest cv2 fuel img t h) as [[] h'|ex h'|]; [| |exact Hspec].
  - split; [exact Hinv|].
    destruct Hspec as (k & [Ap Ai An Ah Ar Ac] & Hseen' & Hvs' & Hlf' & Hls' & Ht & Hz & Hx).
    exists k. unfold call_rows. rewrite Hp.
    rewrite Er in Ar. rewrite Ei in Ai. rewrite Ep, Hp in An. auto 14.
  - split; [exact Hinv|].
    destruct Hspec as (k & [Ap Ai An Ah Ar Ac] & Hseen' & Hvs' & Hlf' & Hls' & Ht & Hz).
    exists k. rewrite Hp. rewrite Er in Ar. auto 10.
Qed.

(** *** Sequences of calls *)

Lemma ingest_all_cons fuel img t rest h :
  ingest_all cv2 fuel ((img, t) :: rest) h =
  match ingest cv2 fuel img t h with
  | Ret _ h1 => ingest_all cv2 fuel rest h1
  | Raise e h1 => Raise e h1
  | Timeout => Timeout
  end.
Proof. reflexivity. Qed.

Lemma ingest_all_app fuel fs gs h :
  ingest_all cv2 fuel (fs ++ gs) h =
  match ingest_all cv2 fuel fs h with
  | Ret _ h1 => ingest_all cv2 fuel gs h1
  | Raise e h1 => Raise e h1
  | Timeout => Timeout
  end.
Proof.
  revert h. induction fs as [|[img t] fs IH]; intros h; [reflexivity|].
  rewrite <- app_comm_cons, !ingest_all_cons.
  destruct (ingest cv2 fuel img t h); auto.
Qed.

Theorem ingest_all_steady p fuel frames :
  forall h, steady p h ->
    match ingest_all cv2 fuel frames h with
    | Ret _ h' => steady p h'
    | Raise _ h' => settled p h'
    | Timeout => True
    end.
Proof.
  induction frames as [|[img t] rest IH]; intros h Hh; [exact Hh|].
  rewrite ingest_all_cons.
  pose proof (ingest_steady p fuel img t h Hh) as Hstep.
  destruct (ingest cv2 fuel img t h) as [[] h1|ex h1|];
    [apply IH; exact Hstep|exact Hstep|exact I].
Qed.

Corollary ingest_all_settled p fuel frames h h' :
  steady p h ->
  final (ingest_all cv2 fuel frames h) = Some h' -> settled p h'.
Proof.
  intros Hh Hfin. pose proof (ingest_all_steady p fuel frames h Hh) as H.
  destruct (ingest_all cv2 fuel frames h) as [[] h1|ex h1|]; cbn in Hfin;
    [injection Hfin as <-; apply H|injection Hfin as <-; exact H|discriminate].
Qed.

(** *** Termination *)

Lemma ingest_all_ends p fuel frames :
  0 < p ->
  forall h,
    steady p h ->
    (first_img_seen h = true ->
     forall st, video_start_ts h = Some st ->
                Forall (fun f => f.2 - st <= Z.of_nat fuel * p) frames) ->
    (first_img_seen h = false ->
     match frames with
     | [] => True
     | (_, t0) :: rest => Forall (fun f => f.2 - t0 <= Z.of_nat fuel * p) rest
     end) ->
    ingest_all cv2 fuel frames h <> Timeout.
Proof.
  intros Hp. induction frames as [|[img t] rest IH]; intros h Hh H1 H2;
    [discriminate|].
  rewrite ingest_all_cons.
  destruct (ingest_step p fuel img t h Hh) as (st & nt & Hnt & Hold & Hfresh & Hstep).
  pose proof (se_idx _ _ (st_settled _ _ Hh)) as Hidx.
  assert (Hrest : Forall (fun f => f.2 - st <= Z.of_nat fuel * p) rest /\
                  t - nt <= Z.of_nat fuel * p).
  { subst nt. destruct (first_img_seen h) eqn:Hseen.
    - specialize (H1 eq_refl st (Hold eq_refl)).
      inversion H1 as [|? ? Ht Hr]; subst. cbn in Ht. split; [assumption|nia].
    - destruct (Hfresh eq_refl) as (-> & _ & Hz & _). rewrite Hz.
      split; [apply H2; reflexivity|nia]. }
  destruct Hrest as [Hrest Hfuel].
  destruct (ingest cv2 fuel img t h) as [[] h1|ex h1|]; [|discriminate|lia].
  destruct Hstep as (Hh1 & k & _ & _ & _ & Hvs1 & Hseen1 & _).
  apply IH; [assumption| |congruence].
  intros _ st' Hst'. rewrite Hvs1 in Hst'. injection Hst' as <-. assumption.
Qed.

Lemma latest_bound (frames : list (Image * Z)) t0 p (fuel : nat) :
  0 < p ->
  latest (snd <$> frames) - t0 <= Z.of_nat fuel * p ->
  Forall (fun f => f.2 - t0 <= Z.of_nat fuel * p) frames.
Proof.
  intros Hp.
  induction frames as [|[img t] rest IH]; intros Hf; constructor; cbn in *.
  - lia.
  - apply IH. lia.
Qed.

Theorem ingest_all_terminates p fuel frames :
  0 < p -> (enough_fuel p frames <= fuel)%nat ->
  ingest_all cv2 fuel frames (ImageTopicHandler_init p) <> Timeout.
Proof.
  intros Hp Hfuel. apply (ingest_all_ends p); auto using steady_init.
  - discriminate.
  - intros _. destruct frames as [|[img t0] rest]; [exact I|].
    apply latest_bound; [assumption|]. cbn in Hfuel.
    set (d := latest (snd <$> rest) - t0) in *.
    pose proof (Z.mod_pos_bound d p Hp). pose proof (Z.div_mod d p ltac:(lia)).
    destruct (Z.le_gt_cases 0 (d `div` p + 1)); nia.
Qed.

Corollary ingest_all_final p fuel frames :
  0 < p -> (enough_fuel p frames <= fuel)%nat ->
  exists h', final (ingest_all cv2 fuel frames (ImageTopicHandler_init p)) = Some h'.
Proof.
  intros Hp Hfuel. pose proof (ingest_all_terminates p fuel frames Hp Hfuel) as H.
  destruct (ingest_all cv2 fuel frames _) as [[] h'|ex h'|];
    [exists h'; reflexivity|exists h'; reflexivity|congruence].
Qed.

(** *** Order of the video timestamps *)

Lemma ingest_ordered p fuel img t h :
  0 <= p -> steady p h -> ordered h -> due h t ->
  match ingest cv2 fuel img t h with
  | Ret _ h' => ordered h'
  | Raise _ h' => nondecreasing (video_timestamp_ns <$> csv_rows h') = true
  | Timeout => True
  end.
Proof.
  intros Hp Hh Hord Hdue.
  destruct (ingest_step p fuel img t h Hh) as (st & nt & Hnt & Hold & Hfresh & Hstep).
  pose proof (se_period _ _ (st_settled _ _ Hh)) as Hper.
  assert (Hpre : exists b, sorted_upto (video_timestamp_ns <$> csv_rows h) b /\
                           b <= nt - st /\ b <= t - st /\
                           (last_frame_bgr h = None -> csv_rows h = [])).
  { destruct (first_img_seen h) eqn:Hseen.
    - destruct (st_started _ _ Hh Hseen) as (st' & ts & Hvs & Hls & Hlf & Hle).
      rewrite (Hold eq_refl) in Hvs. injection Hvs as <-.
      exists (ts - st). split; [apply Hord; auto|].
      specialize (Hdue ts Hls). repeat split; try lia. congruence.
    - destruct (Hfresh eq_refl) as (-> & Hrows & Hz & _).
      exists 0. rewrite Hrows. repeat split; try (cbn; lia). constructor. }
  destruct Hpre as (b & Hsorted & Hb1 & Hb2 & Hnil).
  destruct (ingest cv2 fuel img t h) as [[] h'|ex h'|]; [| |exact I].
  - destruct Hstep as (_ & k & Hrows & _ & _ & Hvs' & _ & _ & Hls' & Ht & _).
    intros st' ts' Hst' Hts'. rewrite Hvs' in Hst'. rewrite Hls' in Hts'.
    injection Hst' as <-. injection Hts' as <-.
    rewrite Hrows. unfold call_rows. rewrite app_assoc, !fmap_app.
    cbn [fmap list_fmap real_row video_timestamp_ns].
    eapply sorted_upto_snoc; [|reflexivity].
    rewrite Hper. eapply sorted_upto_repeats; eauto.
  - destruct Hstep as (_ & k & Hrows & _ & _ & Ht & _).
    rewrite Hrows, fmap_app, Hper.
    eapply (sorted_upto_repeats k _ b); eauto.
Qed.

Lemma ingest_all_ordered p fuel frames :
  0 <= p ->
  forall h h',
    steady p h -> ordered h ->
    nondecreasing (snd <$> frames) = true ->
    (forall t, head (snd <$> frames) = Some t -> due h t) ->
    final (ingest_all cv2 fuel frames h) = Some h' ->
    nondecreasing (video_timestamp_ns <$> csv_rows h') = true.
Proof.
  intros Hp. induction frames as [|[img t] rest IH];
    intros h h' Hh Hord Hsorted Hdue Hfin.
  - cbn in Hfin. injection Hfin as <-.
    destruct (first_img_seen h) eqn:Hseen.
    + destruct (st_started _ _ Hh Hseen) as (st & ts & Hvs & Hls & _).
      apply (Hord st ts Hvs Hls).
    + rewrite (se_unseen _ _ (st_settled _ _ Hh) Hseen). reflexivity.
  - rewrite ingest_all_cons in Hfin.
    pose proof (ingest_ordered p fuel img t h Hp Hh Hord (Hdue t eq_refl)) as Ho.
    pose proof (ingest_steady p fuel img t h Hh) as Hs.
    destruct (ingest_step p fuel img t h Hh) as (st & nt & _ & _ & _ & Hstep).
    destruct (ingest cv2 fuel img t h) as [[] h1|ex h1|]; cbn in Hfin.
    + destruct Hstep as (_ & k & _ & _ & _ & _ & _ & _ & Hls1 & _).
      apply (IH h1 h'); auto.
      * cbn in Hsorted. destruct (snd <$> rest) as [|t' ts'] eqn:Hr;
          [reflexivity|]. cbn in Hsorted.
        apply andb_true_iff in Hsorted as [_ H]. exact H.
      * intros t' Ht' ts Hts. rewrite Hls1 in Hts. injection Hts as <-.
        cbn in Hsorted. destruct (snd <$> rest) as [|t'' ts'] eqn:Hr;
          [discriminate|]. cbn in Ht'. injection Ht' as ->.
        apply andb_true_iff in Hsorted as [H _]. apply Z.leb_le in H. exact H.
    + injection Hfin as <-. exact Ho.
    + discriminate.
Qed.

End Invariants.

(** * The sidecar written for a stream of decoded frames *)

Lemma ingest_all_last cv2 p fuel frames img t h1 :
  ingest_all cv2 fuel (frames ++ [(img, t)]) (ImageTopicHandler_init p)
  = Ret tt h1 ->
  exists h0, ingest_all cv2 fuel frames (ImageTopicHandler_init p) = Ret tt h0 /\
             steady p h0 /\ ingest cv2 fuel img t h0 = Ret tt h1.
Proof.
  rewrite ingest_all_app. intros H.
  pose proof (ingest_all_steady cv2 p fuel frames _ (steady_init p)) as Hs.
  destruct (ingest_all cv2 fuel frames (ImageTopicHandler_init p))
    as [[] h0|ex h0|]; [|discriminate|discriminate].
  exists h0. split; [reflexivity|]. split; [exact Hs|].
  rewrite ingest_all_cons in H.
  destruct (ingest cv2 fuel img t h0) as [[] h|ex h|]; cbn in H;
    unfold ret in H; congruence.
Qed.

(** C1. The frame indices written to the sidecar are 0, 1, ..., N-1 in the
    order of emission, N being the number of rows, and [frame_idx] ends at N:
    every emission, repeat or real, takes the next index.  This holds of
    whatever was written when the run ends, by returning or by an exception;
    the order of the input is not needed for it. *)
Theorem frame_index_gapless (cv2 : Cv2) (p : Z) (frames : list (Image * Z))
    (fuel : nat) :
  0 < p ->
  (enough_fuel p frames <= fuel)%nat ->
  exists h',
    final (ingest_all cv2 fuel frames (ImageTopicHandler_init p)) = Some h' /\
    frame_index <$> csv_rows h' = seqZ 0 (Z.of_nat (length (csv_rows h'))) /\
    frame_idx h' = Z.of_nat (length (csv_rows h')).
Proof.
  intros Hp Hfuel.
  destruct (ingest_all_final cv2 p fuel frames Hp Hfuel) as [h' Hfin].
  exists h'. split; [exact Hfin|].
  pose proof (ingest_all_settled cv2 p fuel frames _ h' (steady_init p) Hfin) as Hs.
  split; [apply (se_index _ _ Hs)|apply (se_idx _ _ Hs)].
Qed.

Lemma frame_index_gapless_witness :
  exists h',
    final (ingest_all ffmpeg 3 [(raster 2 2 1, ms 0); (raster 2 2 2, ms 250)]
                      (ImageTopicHandler_init (ms 100))) = Some h' /\
    frame_index <$> csv_rows h' = seqZ 0 (Z.of_nat (length (csv_rows h'))) /\
    frame_idx h' = Z.of_nat (length (csv_rows h')).
Proof.
  apply (frame_index_gapless ffmpeg (ms 100)
           [(raster 2 2 1, ms 0); (raster 2 2 2, ms 250)] 3).
  - unfold ms. lia.
  - vm_compute. lia.
Defined.

(** C2, as stated, fails: the fourth video timestamp of [two_frames] is
    250 ms, the real frame's own offset, where the fourth multiple of the
    period is 300 ms. *)
Lemma video_timestamps_periodic_counterexample :
  nondecreasing (snd <$> two_frames) = true /\
  exists h',
    ingest_all ffmpeg 3 two_frames (ImageTopicHandler_init (ms 100)) = Ret tt h' /\
    video_timestamp_ns <$> csv_rows h' = [ms 0; ms 100; ms 200; ms 250] /\
    video_timestamp_ns <$> csv_rows h'
    <> (fun i => i * ms 100) <$> seqZ 0 (Z.of_nat (length (csv_rows h'))).
Proof.
  split; [reflexivity|]. eexists. split; [vm_compute; reflexivity|].
  split; [reflexivity|]. vm_compute. discriminate.
Qed.

(** C2, amended.  A repeat is stamped with its index times the period; a real
    frame is stamped with its source time less the time of the first frame,
    which is never later than its index times the period. *)
Theorem video_timestamps_on_ticks (cv2 : Cv2) (p : Z)
    (frames : list (Image * Z)) (fuel : nat) :
  0 < p ->
  (enough_fuel p frames <= fuel)%nat ->
  exists h',
    final (ingest_all cv2 fuel frames (ImageTopicHandler_init p)) = Some h' /\
    forall r, r ∈ csv_rows h' ->
      (is_repeat r = true -> video_timestamp_ns r = frame_index r * p) /\
      (is_repeat r = false ->
       video_timestamp_ns r <= frame_index r * p /\
       exists st, video_start_ts h' = Some st /\
                  source_timestamp_ns r = Some (video_timestamp_ns r + st)).
Proof.
  intros Hp Hfuel.
  destruct (ingest_all_final cv2 p fuel frames Hp Hfuel) as [h' Hfin].
  exists h'. split; [exact Hfin|].
  pose proof (ingest_all_settled cv2 p fuel frames _ h' (steady_init p) Hfin) as Hs.
  intros r Hr.
  destruct (first_img_seen h') eqn:Hseen.
  - destruct (se_clock _ _ Hs Hseen) as (st & Hvs & _ & Hok & _).
    rewrite Forall_forall in Hok. specialize (Hok r Hr). unfold row_ok in Hok.
    destruct (is_repeat r); split; try discriminate; intros _;
      [exact Hok|].
    split; [apply Hok|]. exists st. split; [exact Hvs|apply Hok].
  - rewrite (se_unseen _ _ Hs Hseen) in Hr. inversion Hr.
Qed.

Lemma video_timestamps_on_ticks_witness :
  exists h',
    final (ingest_all ffmpeg 3 two_frames (ImageTopicHandler_init (ms 100)))
    = Some h' /\
    forall r, r ∈ csv_rows h' ->
      (is_repeat r = true -> video_timestamp_ns r = frame_index r * ms 100) /\
      (is_repeat r = false ->
       video_timestamp_ns r <= frame_index r * ms 100 /\
       exists st, video_start_ts h' = Some st /\
                  source_timestamp_ns r = Some (video_timestamp_ns r + st)).
Proof.
  apply (video_timestamps_on_ticks ffmpeg (ms 100) two_frames 3).
  - unfold ms. lia.
  - vm_compute. lia.
Defined.

(** C3, as stated, fails: after a second frame 10 ms after the first, the
    clock stands at 200 ms, not at 10 ms + 100 ms. *)
Lemma next_target_rebased_counterexample :
  exists h',
    ingest_all ffmpeg 0 [(raster 2 2 1, ms 0); (raster 2 2 2, ms 10)]
               (ImageTopicHandler_init (ms 100)) = Ret tt h' /\
    next_target_ts_ns h' = Some (ms 200) /\
    next_target_ts_ns h' <> Some (ms 10 + ms 100).
Proof.
  eexists. split; [vm_compute; reflexivity|].
  split; [reflexivity|]. vm_compute. discriminate.
Qed.

(** C3, amended.  After a call for a frame at [t], [next_target_ts_ns] is the
    time of the first frame plus [frame_idx] periods: every emission moves it
    one period on, and it is never set back to the frame.  That is at least
    [t + period_ns], and exactly that after the first frame. *)
Theorem next_target_counts_emissions (cv2 : Cv2) (p : Z)
    (frames : list (Image * Z)) (img : Image) (t : Z) (fuel : nat) :
  0 < p ->
  (enough_fuel p (frames ++ [(img, t)]) <= fuel)%nat ->
  ingest_all cv2 fuel (frames ++ [(img, t)]) (ImageTopicHandler_init p)
  <> Timeout /\
  forall h',
    ingest_all cv2 fuel (frames ++ [(img, t)]) (ImageTopicHandler_init p)
    = Ret tt h' ->
    exists st,
      video_start_ts h' = Some st /\
      next_target_ts_ns h' = Some (st + frame_idx h' * p) /\
      t + p <= st + frame_idx h' * p /\
      (frames = [] -> next_target_ts_ns h' = Some (t + p)).
Proof.
  intros Hp Hfuel. split; [apply ingest_all_terminates; assumption|].
  intros h' Hrun.
  destruct (ingest_all_last cv2 p fuel frames img t h' Hrun)
    as (h0 & Hrun0 & Hh0 & Hcall).
  destruct (ingest_step cv2 p fuel img t h0 Hh0)
    as (st & nt & Hnt & Hold & Hfresh & Hstep).
  rewrite Hcall in Hstep.
  destruct Hstep as (Hh' & k & Hrows & Hidx & Hnext & Hvs & Hseen & Hlf & Hls & Ht & Hz & Hx).
  exists st. split; [exact Hvs|].
  assert (Hclock : next_target_ts_ns h' = Some (st + frame_idx h' * p)).
  { rewrite Hnext, Hidx, Hnt. f_equal. lia. }
  split; [exact Hclock|]. split.
  - rewrite Hidx. destruct (last_frame_bgr h0) eqn:Hlast.
    + specialize (Hx ltac:(discriminate)). lia.
    + specialize (Hz eq_refl). subst k.
      destruct (first_img_seen h0) eqn:Hs0.
      * destruct (st_started _ _ Hh0 Hs0) as (_ & _ & _ & _ & Hne & _).
        congruence.
      * destruct (Hfresh eq_refl) as (-> & _ & -> & _). lia.
  - intros ->. cbn in Hrun0. injection Hrun0 as <-.
    destruct (Hfresh eq_refl) as (-> & _ & Hz0 & Hl0).
    rewrite Hnext, Hnt, Hz0, (Hz Hl0). f_equal. lia.
Qed.

Lemma next_target_counts_emissions_witness :
  ingest_all ffmpeg 1 ([(raster 2 2 1, ms 0)] ++ [(raster 2 2 2, ms 10)])
             (ImageTopicHandler_init (ms 100)) <> Timeout /\
  forall h',
    ingest_all ffmpeg 1 ([(raster 2 2 1, ms 0)] ++ [(raster 2 2 2, ms 10)])
               (ImageTopicHandler_init (ms 100)) = Ret tt h' ->
    exists st,
      video_start_ts h' = Some st /\
      next_target_ts_ns h' = Some (st + frame_idx h' * ms 100) /\
      ms 10 + ms 100 <= st + frame_idx h' * ms 100 /\
      ([(raster 2 2 1, ms 0)] = [] ->
       next_target_ts_ns h' = Some (ms 10 + ms 100)).
Proof.
  apply (next_target_counts_emissions ffmpeg (ms 100) [(raster 2 2 1, ms 0)]
           (raster 2 2 2) (ms 10) 1).
  - unfold ms. lia.
  - vm_compute. lia.
Defined.

Lemma head_of_settled p h r :
  settled p h -> head (csv_rows h) = Some r ->
  video_timestamp_ns r = 0 /\ is_repeat r = false.
Proof.
  intros Hs Hr. destruct (first_img_seen h) eqn:Hseen.
  - destruct (se_clock _ _ Hs Hseen) as (_ & _ & _ & _ & Hh). auto.
  - rewrite (se_unseen _ _ Hs Hseen) in Hr. discriminate.
Qed.

Lemma ingest_all_emits cv2 p fuel frames h' :
  frames <> [] ->
  ingest_all cv2 fuel frames (ImageTopicHandler_init p) = Ret tt h' ->
  csv_rows h' <> [].
Proof.
  intros Hne Hrun.
  destruct (exists_last Hne) as (fs & [img t] & ->).
  destruct (ingest_all_last cv2 p fuel fs img t h' Hrun) as (h0 & _ & Hh0 & Hcall).
  destruct (ingest_step cv2 p fuel img t h0 Hh0) as (st & nt & _ & _ & _ & Hstep).
  rewrite Hcall in Hstep. destruct Hstep as (_ & k & -> & _).
  unfold call_rows. intros Hnil.
  apply app_eq_nil in Hnil as [_ Hnil]. apply app_eq_nil in Hnil as [_ Hnil].
  discriminate.
Qed.

(** C6. For frames in non-decreasing order of time, the first row of the
    sidecar has video timestamp 0 whatever the time of the first frame, and
    the video timestamps never decrease down the rows.  A run that returns
    from at least one frame has written a row. *)
Theorem video_timestamps_nondecreasing (cv2 : Cv2) (p : Z)
    (frames : list (Image * Z)) (fuel : nat) :
  0 < p ->
  nondecreasing (snd <$> frames) = true ->
  (enough_fuel p frames <= fuel)%nat ->
  exists h',
    final (ingest_all cv2 fuel frames (ImageTopicHandler_init p)) = Some h' /\
    (forall r, head (csv_rows h') = Some r -> video_timestamp_ns r = 0) /\
    nondecreasing (video_timestamp_ns <$> csv_rows h') = true /\
    (frames <> [] ->
     ingest_all cv2 fuel frames (ImageTopicHandler_init p) = Ret tt h' ->
     csv_rows h' <> []).
Proof.
  intros Hp Hsorted Hfuel.
  destruct (ingest_all_final cv2 p fuel frames Hp Hfuel) as [h' Hfin].
  exists h'. split; [exact Hfin|].
  pose proof (ingest_all_settled cv2 p fuel frames _ h' (steady_init p) Hfin) as Hs.
  split; [|split].
  - intros r Hr. apply (head_of_settled p h' r Hs Hr).
  - apply (ingest_all_ordered cv2 p fuel frames ltac:(lia) _ h' (steady_init p));
      try assumption.
    + intros st ts Hst. discriminate.
    + intros t _ ts Hts. discriminate.
  - intros Hne Hrun. apply (ingest_all_emits cv2 p fuel frames h' Hne Hrun).
Qed.

Lemma video_timestamps_nondecreasing_witness :
  exists h',
    final (ingest_all ffmpeg 3 two_frames (ImageTopicHandler_init (ms 100)))
    = Some h' /\
    (forall r, head (csv_rows h') = Some r -> video_timestamp_ns r = 0) /\
    nondecreasing (video_timestamp_ns <$> csv_rows h') = true /\
    (two_frames <> [] ->
     ingest_all ffmpeg 3 two_frames (ImageTopicHandler_init (ms 100)) = Ret tt h' ->
     csv_rows h' <> []).
Proof.
  apply (video_timestamps_nondecreasing ffmpeg (ms 100) two_frames 3).
  - unfold ms. lia.
  - reflexivity.
  - vm_compute. lia.
Defined.

(** A frame that comes no later than one period after the last one finds the
    clock at or past it: the loop test fails at once. *)
Lemma no_gap cv2 p fuel img t1 t2 h :
  steady p h -> first_img_seen h = true -> last_source_ts_ns h = Some t1 ->
  t2 <= t1 + p ->
  emit_frozen_frames_until cv2 fuel t2 (start_clock t2 h)
  = Ret 0 (start_clock t2 h) /\
  ingest cv2 fuel img t2 h <> Timeout /\
  exists st,
    video_start_ts h = Some st /\
    match ingest cv2 fuel img t2 h with
    | Ret _ h' => csv_rows h' = csv_rows h ++ [real_row (frame_idx h) (t2 - st) t2]
    | Raise _ h' => csv_rows h' = csv_rows h
    | Timeout => False
    end.
Proof.
  intros Hh Hseen Hls Hle.
  destruct (st_started _ _ Hh Hseen) as (st & ts & Hvs & Hls' & Hlf & Hclock).
  rewrite Hls in Hls'. injection Hls' as <-.
  destruct (se_clock _ _ (st_settled _ _ Hh) Hseen) as (st' & Hvs' & Hnt & _).
  rewrite Hvs in Hvs'. injection Hvs' as <-.
  split.
  { unfold emit_frozen_frames_until, start_clock. rewrite Hseen.
    rewrite emit_frozen_loop_eq, Hnt.
    destruct (last_frame_bgr h); [|reflexivity].
    destruct (Z.ltb_spec (st + frame_idx h * p) t2); [lia|reflexivity]. }
  destruct (ingest_step cv2 p fuel img t2 h Hh) as (st' & nt & Hnteq & Hold & _ & Hstep).
  rewrite (Hold Hseen) in Hvs. injection Hvs as ->.
  assert (Hk : forall k, ticks_before k nt p t2 -> k = 0%nat).
  { intros [|k] Hk; [reflexivity|]. specialize (Hk 0%nat ltac:(lia)). lia. }
  destruct (ingest cv2 fuel img t2 h) as [[] h'|ex h'|].
  - split; [discriminate|]. exists st. split; [auto|].
    destruct Hstep as (_ & k & Hrows & _ & _ & _ & _ & _ & _ & Ht & _).
    rewrite Hrows, (Hk k Ht). unfold call_rows. cbn. do 3 f_equal. lia.
  - split; [discriminate|]. exists st. split; [auto|].
    destruct Hstep as (_ & k & Hrows & _ & _ & Ht & _).
    rewrite Hrows, (Hk k Ht). cbn. apply app_nil_r.
  - lia.
Qed.

(** C5. The gap-filling loop emits nothing for the first frame, and nothing
    for a frame that comes less than one period after the frame before it:
    it returns 0 with the handler untouched, whatever the fuel, and the call
    adds the one real row (or none, when the sink raises).  For frames at 0,
    10 and 20 ms with a period of 100 ms the sidecar is three real rows. *)
Theorem gap_filling_idle (cv2 : Cv2) (p : Z) :
  (forall fuel t,
     emit_frozen_frames_until cv2 fuel t (start_clock t (ImageTopicHandler_init p))
     = Ret 0 (start_clock t (ImageTopicHandler_init p))) /\
  (forall fuel fuel' frames img1 t1 img2 t2 h1,
     ingest_all cv2 fuel (frames ++ [(img1, t1)]) (ImageTopicHandler_init p)
     = Ret tt h1 ->
     t2 - t1 < p ->
     emit_frozen_frames_until cv2 fuel' t2 (start_clock t2 h1)
     = Ret 0 (start_clock t2 h1) /\
     exists st,
       video_start_ts h1 = Some st /\
       match ingest cv2 fuel' img2 t2 h1 with
       | Ret _ h2 =>
           csv_rows h2 = csv_rows h1 ++ [real_row (frame_idx h1) (t2 - st) t2]
       | Raise _ h2 => csv_rows h2 = csv_rows h1
       | Timeout => False
       end) /\
  (forall fuel,
     exists h',
       ingest_all ffmpeg fuel burst (ImageTopicHandler_init (ms 100)) = Ret tt h' /\
       csv_rows h' = [real_row 0 (ms 0) (ms 0); real_row 1 (ms 10) (ms 10);
                      real_row 2 (ms 20) (ms 20)]).
Proof.
  split; [|split].
  - intros fuel t. destruct fuel; reflexivity.
  - intros fuel fuel' frames img1 t1 img2 t2 h1 Hrun Hlt.
    destruct (ingest_all_last cv2 p fuel frames img1 t1 h1 Hrun)
      as (h0 & _ & Hh0 & Hcall).
    destruct (ingest_step cv2 p fuel img1 t1 h0 Hh0) as (st & nt & _ & _ & _ & Hstep).
    rewrite Hcall in Hstep.
    destruct Hstep as (Hh1 & k & _ & _ & _ & _ & Hseen & _ & Hls & _).
    destruct (no_gap cv2 p fuel' img2 t1 t2 h1 Hh1 Hseen Hls ltac:(lia))
      as (Hloop & _ & Hcall2).
    split; assumption.
  - intros fuel. destruct fuel; eexists; split; vm_compute; reflexivity.
Qed.

(** C10. A frame with the same timestamp as the frame before it gets no
    repeats and one real row, with the next index and the video timestamp of
    the row before. *)
Theorem equal_timestamps_share_video_time (cv2 : Cv2) (p : Z)
    (frames : list (Image * Z)) (img1 img2 : Image) (t : Z)
    (fuel fuel' : nat) (h1 h2 : ImageTopicHandler) :
  0 < p ->
  ingest_all cv2 fuel (frames ++ [(img1, t)]) (ImageTopicHandler_init p)
  = Ret tt h1 ->
  ingest cv2 fuel' img2 t h1 = Ret tt h2 ->
  emit_frozen_frames_until cv2 fuel' t (start_clock t h1)
  = Ret 0 (start_clock t h1) /\
  exists rows r1 r2,
    csv_rows h1 = rows ++ [r1] /\
    csv_rows h2 = rows ++ [r1; r2] /\
    is_repeat r1 = false /\ source_timestamp_ns r1 = Some t /\
    is_repeat r2 = false /\ source_timestamp_ns r2 = Some t /\
    video_timestamp_ns r2 = video_timestamp_ns r1 /\
    frame_index r2 = frame_index r1 + 1.
Proof.
  intros Hp Hrun Hcall2.
  destruct (ingest_all_last cv2 p fuel frames img1 t h1 Hrun)
    as (h0 & _ & Hh0 & Hcall).
  destruct (ingest_step cv2 p fuel img1 t h0 Hh0) as (st & nt & _ & _ & _ & Hstep).
  rewrite Hcall in Hstep.
  destruct Hstep as (Hh1 & k & Hrows1 & Hidx1 & _ & Hvs1 & Hseen & _ & Hls & _).
  destruct (no_gap cv2 p fuel' img2 t t h1 Hh1 Hseen Hls ltac:(lia))
    as (Hloop & _ & st' & Hvs1' & Hrows2).
  rewrite Hvs1 in Hvs1'. injection Hvs1' as <-.
  rewrite Hcall2 in Hrows2.
  split; [exact Hloop|].
  exists (csv_rows h0
          ++ repeat_rows k (frame_idx h0) nt st (last_source_ts_ns h0) (period_ns h0)),
    (real_row (frame_idx h0 + Z.of_nat k) (t - st) t),
    (real_row (frame_idx h1) (t - st) t).
  split; [rewrite Hrows1; unfold call_rows; apply app_assoc|].
  split.
  { rewrite Hrows2, Hrows1. unfold call_rows.
    rewrite <- !app_assoc. reflexivity. }
  cbn. repeat split; try reflexivity. lia.
Qed.

Lemma equal_timestamps_share_video_time_witness :
  emit_frozen_frames_until ffmpeg 0 (ms 7)
    (start_clock (ms 7) (state_after ffmpeg 0 (ms 100) [(raster 2 2 1, ms 7)]))
  = Ret 0 (start_clock (ms 7)
             (state_after ffmpeg 0 (ms 100) [(raster 2 2 1, ms 7)])) /\
  exists rows r1 r2,
    csv_rows (state_after ffmpeg 0 (ms 100) [(raster 2 2 1, ms 7)])
    = rows ++ [r1] /\
    csv_rows (state_after ffmpeg 0 (ms 100) twins) = rows ++ [r1; r2] /\
    is_repeat r1 = false /\ source_timestamp_ns r1 = Some (ms 7) /\
    is_repeat r2 = false /\ source_timestamp_ns r2 = Some (ms 7) /\
    video_timestamp_ns r2 = video_timestamp_ns r1 /\
    frame_index r2 = frame_index r1 + 1.
Proof.
  apply (equal_timestamps_share_video_time ffmpeg (ms 100) []
           (raster 2 2 1) (raster 2 2 2) (ms 7) 0 0).
  - unfold ms. lia.
  - vm_compute. reflexivity.
  - vm_compute. reflexivity.
Defined.

Lemma gap_filling_idle_witness :
  emit_frozen_frames_until ffmpeg 0 (ms 10)
    (start_clock (ms 10) (state_after ffmpeg 0 (ms 100) [(raster 2 2 1, ms 0)]))
  = Ret 0 (start_clock (ms 10)
             (state_after ffmpeg 0 (ms 100) [(raster 2 2 1, ms 0)])) /\
  exists st,
    video_start_ts (state_after ffmpeg 0 (ms 100) [(raster 2 2 1, ms 0)])
    = Some st /\
    match ingest ffmpeg 0 (raster 2 2 2) (ms 10)
                 (state_after ffmpeg 0 (ms 100) [(raster 2 2 1, ms 0)]) with
    | Ret _ h2 =>
        csv_rows h2
        = csv_rows (state_after ffmpeg 0 (ms 100) [(raster 2 2 1, ms 0)])
          ++ [real_row (frame_idx (state_after ffmpeg 0 (ms 100)
                                     [(raster 2 2 1, ms 0)]))
                       (ms 10 - st) (ms 10)]
    | Raise _ h2 =>
        csv_rows h2
        = csv_rows (state_after ffmpeg 0 (ms 100) [(raster 2 2 1, ms 0)])
    | Timeout => False
    end.
Proof.
  apply (proj1 (proj2 (gap_filling_idle ffmpeg (ms 100))) 0%nat 0%nat []
           (raster 2 2 1) (ms 0) (raster 2 2 2) (ms 10)).
  - vm_compute. reflexivity.
  - vm_compute. reflexivity.
Defined.

(** * The video sink *)

Section Sink.

Variable cv2 : Cv2.
Variables w hh : Z.

Lemma push_frame_ready img h :
  sink_ready cv2 w hh h -> img_w img = w -> img_h img = hh ->
  exists vw,
    push_frame cv2 img (writer h) = (Some vw, None) /\
    vw_opened vw = true /\ vw_w vw = w /\ vw_h vw = hh /\
    vw_frames vw = sink_frames h ++ [img].
Proof.
  intros [Ho Hw Hl] Hiw Hih. unfold push_frame, sink_frames.
  destruct (writer h) as [vw|].
  - destruct (Hw vw eq_refl) as (Hopen & Hvw & Hvh).
    unfold VideoWriter_write, same_geometry.
    rewrite Hopen, Hiw, Hih, Hvw, Hvh, !Z.eqb_refl. cbn.
    eexists. split; [reflexivity|]. cbn. auto.
  - cbn. rewrite Hiw, Hih, Ho.
    unfold VideoWriter_write, same_geometry, VideoWriter_new. cbn.
    rewrite Ho, Hiw, Hih, !Z.eqb_refl. cbn.
    eexists. split; [reflexivity|]. cbn. auto.
Qed.

Lemma sink_ready_set_writer vw h :
  sink_ready cv2 w hh h ->
  vw_opened vw = true -> vw_w vw = w -> vw_h vw = hh ->
  sink_ready cv2 w hh (set_writer (Some vw) h).
Proof.
  intros [Ho Hw Hl] H1 H2 H3. split; cbn; [assumption| |assumption].
  intros vw' [= <-]. auto.
Qed.

Lemma loop_sink fuel t :
  forall e h nt st last,
    next_target_ts_ns h = Some nt ->
    video_start_ts h = Some st ->
    csv_closes h = 0%nat ->
    last_frame_bgr h = Some last ->
    sink_ready cv2 w hh h ->
    match emit_frozen_loop cv2 fuel t e h with
    | Ret _ h' =>
        sink_ready cv2 w hh h' /\
        sink_frames h'
        = sink_frames h ++ replicate (Z.to_nat (frame_idx h' - frame_idx h)) last /\
        (is_Some (writer h) -> is_Some (writer h'))
    | Raise _ _ => False
    | Timeout => True
    end.
Proof.
  induction fuel as [|fuel IH]; intros e h nt st last Hnt Hst Hcl Hlast Hready;
    rewrite emit_frozen_loop_eq, Hnt, Hlast.
  - destruct (nt <? t); [exact I|].
    split; [assumption|]. rewrite Z.sub_diag. cbn. rewrite app_nil_r. auto.
  - destruct (nt <? t).
    2:{ split; [assumption|]. rewrite Z.sub_diag. cbn.
        rewrite app_nil_r. auto. }
    rewrite push_frame_bind.
    destruct (sr_last _ _ _ _ Hready last Hlast) as [Hlw Hlh].
    destruct (push_frame_ready last h Hready Hlw Hlh)
      as (vw & -> & Hopen & Hvw & Hvh & Hframes).
    rewrite (repeat_round _ (Some vw) h nt st Hnt Hst Hcl).
    set (h1 := after_repeat (Some vw) nt st h).
    assert (Hready1 : sink_ready cv2 w hh h1).
    { destruct Hready as [Ho Hw Hl]. split; cbn; [assumption| |assumption].
      intros vw' [= <-]. auto. }
    pose proof (IH (e + 1) h1 (nt + period_ns h) st last
                   eq_refl Hst Hcl Hlast Hready1) as Hsink.
    pose proof (loop_spec cv2 fuel t (e + 1) h1 (nt + period_ns h) st
                          eq_refl Hst Hcl) as Hspec.
    destruct (emit_frozen_loop cv2 fuel t (e + 1) h1) as [e' h'|ex h'|];
      [|exact Hsink|exact I].
    destruct Hsink as (Hready' & Hfr & Hsome). split; [assumption|].
    split; [|intros _; apply Hsome; eexists; reflexivity].
    destruct Hspec as (k & _ & Ha & _).
    pose proof (adv_idx _ _ _ _ _ Ha) as Hidx. cbn in Hidx.
    rewrite Hfr. change (sink_frames h1) with (vw_frames vw).
    rewrite Hframes, <- app_assoc. f_equal.
    replace (frame_idx h' - frame_idx h) with (Z.succ (Z.of_nat k)) by lia.
    replace (frame_idx h' - frame_idx h1) with (Z.of_nat k)
      by (unfold h1; cbn; lia).
    rewrite Z2Nat.inj_succ, Nat2Z.id by lia. reflexivity.
Qed.

(** The gap-filling phase of a call, with the sink ready for the frame
    held: it cannot raise. *)
Lemma gap_phase p fuel img t h :
  steady p h -> sink_ready cv2 w hh h ->
  match emit_frozen_loop cv2 fuel t 0 (start_clock t h) with
  | Ret _ h1 =>
      sink_ready cv2 w hh h1 /\
      sink_frames h1
      = sink_frames h
        ++ replicate (Z.to_nat (frame_idx h1 - frame_idx h))
                     (default img (last_frame_bgr h)) /\
      (is_Some (writer h) -> is_Some (writer h1)) /\
      exists nt1 st, next_target_ts_ns h1 = Some nt1 /\
                     video_start_ts h1 = Some st /\ csv_closes h1 = 0%nat
  | Raise _ _ => False
  | Timeout => True
  end.
Proof.
  intros Hh Hready.
  destruct (steady_clock p t h Hh) as (st & nt & Hnt & Hvs & _).
  pose proof (se_closes _ _ (st_settled _ _ Hh)) as Hcl.
  assert (Hsame : writer (start_clock t h) = writer h /\
                  last_frame_bgr (start_clock t h) = last_frame_bgr h /\
                  frame_idx (start_clock t h) = frame_idx h /\
                  csv_closes (start_clock t h) = csv_closes h).
  { unfold start_clock. destruct (first_img_seen h); cbn; auto. }
  destruct Hsame as (Ew & El & Ei & Ec).
  assert (Hready0 : sink_ready cv2 w hh (start_clock t h)).
  { destruct Hready as [Ho Hw Hl]. split; rewrite ?Ew, ?El; assumption. }
  assert (Hfr0 : sink_frames (start_clock t h) = sink_frames h)
    by (unfold sink_frames; rewrite Ew; reflexivity).
  rewrite <- Ei, <- El, <- Hfr0, <- Ew. rewrite <- Ec in Hcl.
  set (h0 := start_clock t h) in *. clearbody h0. clear h Hh Hready Ew El Ei Ec Hfr0.
  pose proof (loop_spec cv2 fuel t 0 h0 nt st Hnt Hvs Hcl) as Hspec.
  destruct (last_frame_bgr h0) as [last|] eqn:Hlast.
  - pose proof (loop_sink fuel t 0 h0 nt st last Hnt Hvs Hcl Hlast Hready0) as Hs.
    destruct (emit_frozen_loop cv2 fuel t 0 h0) as [e h1|ex h1|]; auto.
    destruct Hs as (Hr & Hf & Hsome). split; [assumption|]. split; [exact Hf|].
    split; [exact Hsome|].
    destruct Hspec as (k & _ & Ha & Hk & _).
    eexists _, st. split; [apply (adv_next _ _ _ _ _ Ha)|].
    split; [rewrite (kept_start _ _ Hk); assumption|].
    rewrite (adv_closes _ _ _ _ _ Ha). assumption.
  - rewrite emit_frozen_loop_eq, Hnt, Hlast in Hspec |- *.
    split; [assumption|]. rewrite Z.sub_diag. cbn. rewrite app_nil_r.
    split; [reflexivity|]. split; [auto|]. eauto.
Qed.

(** A frame of the sink's geometry goes through: the call cannot raise, and
    the sink gets the held frame once per repeat and then the new frame. *)
Lemma ingest_sink p fuel img t h :
  steady p h -> sink_ready cv2 w hh h -> img_w img = w -> img_h img = hh ->
  match ingest cv2 fuel img t h with
  | Ret _ h' =>
      sink_ready cv2 w hh h' /\
      sink_frames h'
      = sink_frames h
        ++ replicate (Z.to_nat (frame_idx h' - frame_idx h - 1))
                     (default img (last_frame_bgr h))
        ++ [img]
  | Raise _ _ => False
  | Timeout => True
  end.
Proof.
  intros Hh Hready Hiw Hih.
  pose proof (gap_phase p fuel img t h Hh Hready) as Hloop.
  rewrite ingest_eq. unfold bind at 1.
  destruct (emit_frozen_loop cv2 fuel t 0 (start_clock t h)) as [e h1|ex h1|];
    [|exact Hloop|exact I].
  destruct Hloop as (Hready1 & Hfr1 & _ & nt1 & st & Hnt1 & Hvs1 & Hcl1).
  rewrite push_frame_bind.
  destruct (push_frame_ready img h1 Hready1 Hiw Hih)
    as (vw & -> & Hopen & Hvw & Hvh & Hframes).
  rewrite (real_round (Some vw) img t h1 nt1 st Hnt1 Hvs1 Hcl1).
  split.
  - destruct Hready1 as [Ho Hw Hl]. split; cbn; [assumption| |].
    + intros vw' [= <-]. auto.
    + intros img' [= <-]. auto.
  - change (sink_frames (after_real (Some vw) img t nt1 st h1))
      with (vw_frames vw).
    rewrite Hframes, Hfr1, <- app_assoc. do 3 f_equal. cbn. lia.
Qed.

(** A frame of another geometry, once there is a writer: what happens is up
    to the sink.  If it drops the frame the call returns, the sink having
    received the repeats only; if it raises, so does the call. *)
Lemma ingest_mismatch p fuel img t h :
  steady p h -> sink_ready cv2 w hh h -> is_Some (writer h) ->
  img_w img <> w \/ img_h img <> hh ->
  match ingest cv2 fuel img t h with
  | Ret _ h' =>
      cv2_mismatch cv2 = MismatchDrops /\
      sink_frames h'
      = sink_frames h
        ++ replicate (Z.to_nat (frame_idx h' - frame_idx h - 1))
                     (default img (last_frame_bgr h))
  | Raise e _ => cv2_mismatch cv2 = MismatchRaises /\ e = Cv2Error
  | Timeout => True
  end.
Proof.
  intros Hh Hready Hsome Hgeo.
  pose proof (gap_phase p fuel img t h Hh Hready) as Hloop.
  rewrite ingest_eq. unfold bind at 1.
  destruct (emit_frozen_loop cv2 fuel t 0 (start_clock t h)) as [e h1|ex h1|];
    [|contradiction|exact I].
  destruct Hloop as (Hready1 & Hfr1 & Hsome1 & nt1 & st & Hnt1 & Hvs1 & Hcl1).
  rewrite push_frame_bind.
  destruct (Hsome1 Hsome) as [vw Hvw].
  destruct (sr_writer _ _ _ _ Hready1 vw Hvw) as (Hopen & Hw & Hhh).
  assert (Hpush : push_frame cv2 img (writer h1) =
                  match cv2_mismatch cv2 with
                  | MismatchDrops => (Some vw, None)
                  | MismatchRaises => (Some vw, Some Cv2Error)
                  end).
  { rewrite Hvw. unfold push_frame, VideoWriter_write, same_geometry.
    rewrite Hopen, Hw, Hhh. cbn.
    assert ((img_w img =? w) && (img_h img =? hh) = false) as ->.
    { apply andb_false_iff. destruct Hgeo; [left|right]; apply Z.eqb_neq; auto. }
    destruct (cv2_mismatch cv2); reflexivity. }
  rewrite Hpush. destruct (cv2_mismatch cv2); [|auto].
  rewrite (real_round (Some vw) img t h1 nt1 st Hnt1 Hvs1 Hcl1).
  split; [reflexivity|].
  change (sink_frames (after_real (Some vw) img t nt1 st h1))
    with (vw_frames vw).
  unfold sink_frames in Hfr1 at 1. rewrite Hvw in Hfr1. rewrite Hfr1.
  do 3 f_equal. cbn. lia.
Qed.

End Sink.

(** *** Sink and sidecar side by side *)

Lemma matches_mono fed fed' img r :
  matches fed img r -> matches (fed ++ fed') img r.
Proof.
  intros (t & Hsrc & Hin). exists t. split; [assumption|].
  apply elem_of_app. auto.
Qed.

Lemma repeats_match fed k img idx nt st src p :
  (k <> 0%nat -> exists t, src = Some t /\ (img, t) ∈ fed) ->
  Forall2 (matches fed) (replicate k img) (repeat_rows k idx nt st src p).
Proof.
  revert idx nt. induction k as [|k IH]; intros idx nt Hsrc; cbn;
    constructor.
  - destruct (Hsrc ltac:(discriminate)) as (t & -> & Hin).
    exists t. cbn. auto.
  - apply IH. intros _. apply Hsrc. discriminate.
Qed.

Section Synced.

Variable cv2 : Cv2.
Variables w hh : Z.

Lemma ingest_synced p fuel fed img t h :
  steady p h -> sink_ready cv2 w hh h -> synced fed h ->
  img_w img = w -> img_h img = hh ->
  match ingest cv2 fuel img t h with
  | Ret _ h' => sink_ready cv2 w hh h' /\ synced (fed ++ [(img, t)]) h'
  | Raise _ _ => False
  | Timeout => True
  end.
Proof.
  intros Hh Hready [Hpairs Hlast] Hiw Hih.
  pose proof (ingest_sink cv2 w hh p fuel img t h Hh Hready Hiw Hih) as Hsink.
  destruct (ingest_step cv2 p fuel img t h Hh) as (st & nt & _ & _ & _ & Hstep).
  pose proof (se_period _ _ (st_settled _ _ Hh)) as Hp.
  destruct (ingest cv2 fuel img t h) as [[] h'|ex h'|]; [|exact Hsink|exact I].
  destruct Hsink as [Hready' Hfr]. split; [assumption|].
  destruct Hstep as (_ & k & Hrows & Hidx & _ & _ & _ & Hlf & Hls & _ & Hz & _).
  replace (frame_idx h' - frame_idx h - 1) with (Z.of_nat k) in Hfr by lia.
  rewrite Nat2Z.id in Hfr.
  split.
  - rewrite Hfr, Hrows. unfold call_rows.
    apply Forall2_app; [|apply Forall2_app].
    + eapply Forall2_impl; [exact Hpairs|]. intros; apply matches_mono; assumption.
    + apply repeats_match. intros Hk.
      destruct (last_frame_bgr h) as [last|] eqn:Hl; [|destruct Hk; auto].
      destruct (Hlast last eq_refl) as (ts & Hts & Hin).
      exists ts. cbn. split; [assumption|]. apply elem_of_app. auto.
    + constructor; [|constructor]. exists t. cbn. split; [reflexivity|].
      apply elem_of_app. right. apply list_elem_of_singleton. reflexivity.
  - intros img' Himg'. rewrite Hlf in Himg'. injection Himg' as <-.
    exists t. split; [assumption|].
    apply elem_of_app. right. apply list_elem_of_singleton. reflexivity.
Qed.

Lemma ingest_all_synced p fuel frames :
  Forall (fun f => img_w f.1 = w /\ img_h f.1 = hh) frames ->
  forall fed h,
    steady p h -> sink_ready cv2 w hh h -> synced fed h ->
    match ingest_all cv2 fuel frames h with
    | Ret _ h' =>
        steady p h' /\ sink_ready cv2 w hh h' /\ synced (fed ++ frames) h'
    | Raise _ _ => False
    | Timeout => True
    end.
Proof.
  induction 1 as [|[img t] rest [Hiw Hih] Hrest IH]; intros fed h Hh Hready Hsy.
  - cbn. rewrite app_nil_r. auto.
  - rewrite ingest_all_cons.
    pose proof (ingest_synced p fuel fed img t h Hh Hready Hsy Hiw Hih) as Hstep.
    pose proof (ingest_steady cv2 p fuel img t h Hh) as Hh1.
    destruct (ingest cv2 fuel img t h) as [[] h1|ex h1|]; [|exact Hstep|exact I].
    destruct Hstep as [Hready1 Hsy1].
    specialize (IH (fed ++ [(img, t)]) h1 Hh1 Hready1 Hsy1).
    rewrite <- app_assoc in IH. exact IH.
Qed.

(** With a sink that opens for the geometry all frames share, and a positive
    period, the run returns; the video then has a frame for every row of the
    sidecar, with the pixels of the source frame the row names. *)
Theorem ingest_all_returns p fuel frames :
  0 < p ->
  cv2_opens cv2 w hh = true ->
  Forall (fun f => img_w f.1 = w /\ img_h f.1 = hh) frames ->
  (enough_fuel p frames <= fuel)%nat ->
  exists h',
    ingest_all cv2 fuel frames (ImageTopicHandler_init p) = Ret tt h' /\
    steady p h' /\ sink_ready cv2 w hh h' /\
    Forall2 (matches frames) (sink_frames h') (csv_rows h').
Proof.
  intros Hp Hopen Hgeo Hfuel.
  pose proof (ingest_all_terminates cv2 p fuel frames Hp Hfuel) as Hterm.
  assert (Hready : sink_ready cv2 w hh (ImageTopicHandler_init p))
    by (split; cbn; [assumption|discriminate|discriminate]).
  assert (Hsy : synced [] (ImageTopicHandler_init p))
    by (split; cbn; [constructor|discriminate]).
  pose proof (ingest_all_synced p fuel frames Hgeo [] _ (steady_init p) Hready Hsy)
    as Hrun.
  destruct (ingest_all cv2 fuel frames (ImageTopicHandler_init p))
    as [[] h'|ex h'|]; [|contradiction|congruence].
  exists h'. destruct Hrun as (Hh' & Hready' & [Hpairs _]). auto.
Qed.

End Synced.

Lemma ingest_first cv2 p fuel img t h1 :
  ingest cv2 fuel img t (ImageTopicHandler_init p) = Ret tt h1 ->
  steady p h1 /\
  csv_rows h1 = [real_row 0 0 t] /\ frame_idx h1 = 1 /\
  next_target_ts_ns h1 = Some (t + p) /\ video_start_ts h1 = Some t /\
  first_img_seen h1 = true /\
  last_frame_bgr h1 = Some img /\ last_source_ts_ns h1 = Some t.
Proof.
  intros Hcall.
  destruct (ingest_step cv2 p fuel img t _ (steady_init p))
    as (st & nt & Hnt & _ & Hfresh & Hstep).
  rewrite Hcall in Hstep. destruct (Hfresh eq_refl) as (-> & _).
  cbn in Hnt. subst nt.
  destruct Hstep as (Hh1 & k & Hrows & Hidx & Hnext & Hvs & Hseen & Hlf & Hls & _ & Hz & _).
  rewrite (Hz eq_refl) in Hrows, Hidx, Hnext.
  unfold call_rows in Hrows. cbn in Hrows, Hidx, Hnext.
  rewrite Z.sub_diag in Hrows.
  split; [exact Hh1|]. split; [exact Hrows|]. split; [exact Hidx|].
  split; [rewrite Hnext; f_equal; lia|]. auto.
Qed.

(** C4. Two frames, at 0 and at 250 ms, with a period of 100 ms: four rows,
    the first frame at 0, two repeats of it at 100 and 200 ms carrying its
    source time, and the second frame at its own 250 ms; the sink receives
    the first raster three times and then the second. *)
Theorem gap_fill_example (cv2 : Cv2) (img0 img1 : Image) (fuel : nat) :
  cv2_opens cv2 (img_w img0) (img_h img0) = true ->
  img_w img1 = img_w img0 ->
  img_h img1 = img_h img0 ->
  (3 <= fuel)%nat ->
  exists h',
    ingest_all cv2 fuel [(img0, ms 0); (img1, ms 250)]
               (ImageTopicHandler_init (ms 100)) = Ret tt h' /\
    csv_rows h' =
      [ {| frame_index := 0; video_timestamp_ns := ms 0;
           source_timestamp_ns := Some (ms 0); is_repeat := false |};
        {| frame_index := 1; video_timestamp_ns := ms 100;
           source_timestamp_ns := Some (ms 0); is_repeat := true |};
        {| frame_index := 2; video_timestamp_ns := ms 200;
           source_timestamp_ns := Some (ms 0); is_repeat := true |};
        {| frame_index := 3; video_timestamp_ns := ms 250;
           source_timestamp_ns := Some (ms 250); is_repeat := false |} ] /\
    sink_frames h' = [img0; img0; img0; img1].
Proof.
  intros Hopen Hw Hh Hfuel.
  assert (Hp : 0 < ms 100) by (unfold ms; lia).
  assert (Hgeo : Forall (fun f : Image * Z =>
                           img_w f.1 = img_w img0 /\ img_h f.1 = img_h img0)
                        [(img0, ms 0); (img1, ms 250)])
    by (repeat constructor; assumption).
  assert (Hfuel' : (enough_fuel (ms 100) [(img0, ms 0); (img1, ms 250)]
                    <= fuel)%nat).
  { replace (enough_fuel (ms 100) [(img0, ms 0); (img1, ms 250)]) with 3%nat
      by (vm_compute; reflexivity). exact Hfuel. }
  destruct (ingest_all_returns cv2 (img_w img0) (img_h img0) (ms 100) fuel
              [(img0, ms 0); (img1, ms 250)] Hp Hopen Hgeo Hfuel')
    as (h' & Hrun & Hh' & _ & Hpairs).
  exists h'. split; [exact Hrun|].
  destruct (ingest_all_last cv2 (ms 100) fuel [(img0, ms 0)] img1 (ms 250) h' Hrun)
    as (h1 & Hrun1 & Hh1 & Hcall2).
  destruct (ingest_all_last cv2 (ms 100) fuel [] img0 (ms 0) h1 Hrun1)
    as (h0 & [= <-] & _ & Hcall1).
  destruct (ingest_first cv2 _ _ _ _ _ Hcall1)
    as (_ & Hrows1 & Hidx1 & Hnt1 & Hvs1 & Hseen1 & Hlf1 & Hls1).
  destruct (ingest_step cv2 (ms 100) fuel img1 (ms 250) h1 Hh1)
    as (st & nt & Hnt & Hold & _ & Hstep).
  rewrite Hcall2 in Hstep. rewrite (Hold Hseen1) in Hvs1. injection Hvs1 as ->.
  rewrite Hidx1 in Hnt.
  destruct Hstep as (_ & k & Hrows & _ & _ & _ & _ & _ & _ & Ht & _ & Hx).
  specialize (Hx ltac:(congruence)).
  assert (k = 2%nat) as ->.
  { destruct (Nat.lt_ge_cases 2 k) as [Hgt|Hle].
    - specialize (Ht 2%nat Hgt). unfold ms in *. lia.
    - unfold ms in *. lia. }
  assert (Hrows' : csv_rows h' =
    [ real_row 0 (ms 0) (ms 0);
      {| frame_index := 1; video_timestamp_ns := ms 100;
         source_timestamp_ns := Some (ms 0); is_repeat := true |};
      {| frame_index := 2; video_timestamp_ns := ms 200;
         source_timestamp_ns := Some (ms 0); is_repeat := true |};
      real_row 3 (ms 250) (ms 250) ]).
  { rewrite Hrows, Hrows1. unfold call_rows.
    rewrite Hidx1, Hls1, (se_period _ _ (st_settled _ _ Hh1)). subst nt.
    vm_compute. reflexivity. }
  split; [exact Hrows'|].
  rewrite Hrows' in Hpairs.
  assert (Hpick : forall img t, (img, t) ∈ [(img0, ms 0); (img1, ms 250)] ->
                    (t = ms 0 -> img = img0) /\ (t = ms 250 -> img = img1)).
  { intros img t Hin. apply elem_of_cons in Hin as [[= -> ->]|Hin].
    - split; [reflexivity|discriminate].
    - apply list_elem_of_singleton in Hin as [= -> ->].
      split; [discriminate|reflexivity]. }
  repeat match goal with
         | H : Forall2 _ _ (_ :: _) |- _ =>
             apply Forall2_cons_inv_r in H as (? & ? & (? & [= <-] & ?%Hpick) & ? & ->)
         | H : Forall2 _ _ [] |- _ => apply Forall2_nil_inv_r in H as ->
         end.
  repeat match goal with
         | H : (_ -> _) /\ (_ -> _) |- _ => destruct H as [? ?]
         end.
  repeat f_equal; auto.
Qed.

Lemma gap_fill_example_witness :
  exists h',
    ingest_all ffmpeg 3 [(raster 2 2 1, ms 0); (raster 2 2 2, ms 250)]
               (ImageTopicHandler_init (ms 100)) = Ret tt h' /\
    csv_rows h' =
      [ {| frame_index := 0; video_timestamp_ns := ms 0;
           source_timestamp_ns := Some (ms 0); is_repeat := false |};
        {| frame_index := 1; video_timestamp_ns := ms 100;
           source_timestamp_ns := Some (ms 0); is_repeat := true |};
        {| frame_index := 2; video_timestamp_ns := ms 200;
           source_timestamp_ns := Some (ms 0); is_repeat := true |};
        {| frame_index := 3; video_timestamp_ns := ms 250;
           source_timestamp_ns := Some (ms 250); is_repeat := false |} ] /\
    sink_frames h' = [raster 2 2 1; raster 2 2 1; raster 2 2 1; raster 2 2 2].
Proof.
  apply (gap_fill_example ffmpeg (raster 2 2 1) (raster 2 2 2) 3);
    [reflexivity|reflexivity|reflexivity|lia].
Defined.

(** * Frames of another geometry *)

(** C9, as stated, fails with a sink that drops what it cannot take: the
    second frame is 3 by 3 where the first was 2 by 2, no error is raised,
    and the sidecar gets its row all the same, for a frame the video lacks. *)
Lemma geometry_mismatch_counterexample :
  exists h',
    ingest_all ffmpeg 0 odd_one_out (ImageTopicHandler_init (ms 100)) = Ret tt h' /\
    csv_rows h' = [real_row 0 (ms 0) (ms 0); real_row 1 (ms 10) (ms 10)] /\
    sink_frames h' = [raster 2 2 1].
Proof.
  eexists. split; [vm_compute; reflexivity|]. split; reflexivity.
Qed.

(** C9, amended.  The handler never compares dimensions; a frame that
    differs from the writer's geometry goes to the sink after the repeats due
    before it, and the outcome is the sink's.  If the sink drops it, the call
    returns, the row of the frame is written and the handler is ready for
    the next frame, while the video got the repeats only.  If the sink
    raises, the call raises after those repeats, without a row for the frame,
    and the run ends there whatever follows. *)
Theorem geometry_is_left_to_the_sink (cv2 : Cv2) (w hh p : Z)
    (frames rest : list (Image * Z)) (img : Image) (t : Z) (fuel : nat) :
  0 < p ->
  cv2_opens cv2 w hh = true ->
  frames <> [] ->
  Forall (fun f => img_w f.1 = w /\ img_h f.1 = hh) frames ->
  img_w img <> w \/ img_h img <> hh ->
  (enough_fuel p (frames ++ [(img, t)]) <= fuel)%nat ->
  exists h1 st last reps,
    ingest_all cv2 fuel frames (ImageTopicHandler_init p) = Ret tt h1 /\
    video_start_ts h1 = Some st /\ last_frame_bgr h1 = Some last /\
    Forall (fun r => is_repeat r = true) reps /\
    match cv2_mismatch cv2 with
    | MismatchDrops =>
        exists h2,
          ingest cv2 fuel img t h1 = Ret tt h2 /\ steady p h2 /\
          csv_rows h2
          = csv_rows h1 ++ reps
            ++ [real_row (frame_idx h1 + Z.of_nat (length reps)) (t - st) t] /\
          sink_frames h2 = sink_frames h1 ++ replicate (length reps) last
    | MismatchRaises =>
        exists h2,
          ingest cv2 fuel img t h1 = Raise Cv2Error h2 /\
          csv_rows h2 = csv_rows h1 ++ reps /\
          ingest_all cv2 fuel (frames ++ (img, t) :: rest)
                     (ImageTopicHandler_init p) = Raise Cv2Error h2
    end.
Proof.
  intros Hp Hopen Hne Hgeo Hmis Hfuel.
  pose proof (ingest_all_terminates cv2 p fuel _ Hp Hfuel) as Hterm.
  rewrite ingest_all_app in Hterm.
  assert (Hready : sink_ready cv2 w hh (ImageTopicHandler_init p))
    by (split; cbn; [assumption|discriminate|discriminate]).
  assert (Hsy : synced [] (ImageTopicHandler_init p))
    by (split; cbn; [constructor|discriminate]).
  pose proof (ingest_all_synced cv2 w hh p fuel frames Hgeo [] _
                (steady_init p) Hready Hsy) as Hrun.
  pose proof (ingest_all_emits cv2 p fuel frames) as Hemits.
  rewrite (ingest_all_app cv2 fuel frames ((img, t) :: rest)).
  destruct (ingest_all cv2 fuel frames (ImageTopicHandler_init p))
    as [[] h1|ex h1|]; [|contradiction|congruence].
  destruct Hrun as (Hh1 & Hready1 & [Hpairs Hlast]).
  specialize (Hemits h1 Hne eq_refl).
  assert (Hsome : is_Some (writer h1)).
  { unfold sink_frames in Hpairs. destruct (writer h1); [eexists; reflexivity|].
    apply Forall2_nil_inv_l in Hpairs. contradiction. }
  assert (Hseen : first_img_seen h1 = true).
  { destruct (first_img_seen h1) eqn:Hs; [reflexivity|].
    destruct Hemits. apply (se_unseen _ _ (st_settled _ _ Hh1) Hs). }
  destruct (st_started _ _ Hh1 Hseen) as (st & ts & Hvs & Hls & Hlf & _).
  destruct (last_frame_bgr h1) as [last|] eqn:Hlast'; [|congruence].
  pose proof (ingest_mismatch cv2 w hh p fuel img t h1 Hh1 Hready1 Hsome Hmis)
    as Hsink.
  pose proof (ingest_steady cv2 p fuel img t h1 Hh1) as Hsteady.
  destruct (ingest_step cv2 p fuel img t h1 Hh1)
    as (st' & nt & _ & Hold & _ & Hstep).
  rewrite (Hold Hseen) in Hvs. injection Hvs as ->.
  rewrite ingest_all_cons in Hterm |- *.
  rewrite Hlast' in Hsink. cbn [default] in Hsink.
  destruct (ingest cv2 fuel img t h1) as [[] h2|ex h2|] eqn:Hcall;
    [| |congruence].
  - destruct Hsink as [Hpol Hfr]. rewrite Hpol.
    destruct Hstep as (_ & k & Hrows & Hidx & _).
    exists h1, st, last,
      (repeat_rows k (frame_idx h1) nt st (last_source_ts_ns h1) (period_ns h1)).
    rewrite repeat_rows_length.
    split; [reflexivity|]. split; [auto|]. split; [assumption|].
    split; [apply repeat_rows_all_repeat|].
    exists h2. split; [exact Hcall|]. split; [assumption|].
    split; [exact Hrows|].
    rewrite Hfr. do 2 f_equal. lia.
  - destruct Hsink as [Hpol ->]. rewrite Hpol.
    destruct Hstep as (_ & k & Hrows & _).
    exists h1, st, last,
      (repeat_rows k (frame_idx h1) nt st (last_source_ts_ns h1) (period_ns h1)).
    split; [reflexivity|]. split; [auto|]. split; [assumption|].
    split; [apply repeat_rows_all_repeat|].
    exists h2. auto.
Qed.

Lemma geometry_is_left_to_the_sink_witness :
  exists h1 st last reps,
    ingest_all strict_sink 3 [(raster 2 2 1, ms 0)]
               (ImageTopicHandler_init (ms 100)) = Ret tt h1 /\
    video_start_ts h1 = Some st /\ last_frame_bgr h1 = Some last /\
    Forall (fun r => is_repeat r = true) reps /\
    match cv2_mismatch strict_sink with
    | MismatchDrops =>
        exists h2,
          ingest strict_sink 3 (raster 3 3 2) (ms 250) h1 = Ret tt h2 /\
          steady (ms 100) h2 /\
          csv_rows h2
          = csv_rows h1 ++ reps
            ++ [real_row (frame_idx h1 + Z.of_nat (length reps))
                         (ms 250 - st) (ms 250)] /\
          sink_frames h2 = sink_frames h1 ++ replicate (length reps) last
    | MismatchRaises =>
        exists h2,
          ingest strict_sink 3 (raster 3 3 2) (ms 250) h1 = Raise Cv2Error h2 /\
          csv_rows h2 = csv_rows h1 ++ reps /\
          ingest_all strict_sink 3
            ([(raster 2 2 1, ms 0)]
             ++ (raster 3 3 2, ms 250) :: [(raster 2 2 3, ms 300)])
            (ImageTopicHandler_init (ms 100)) = Raise Cv2Error h2
    end.
Proof.
  apply (geometry_is_left_to_the_sink strict_sink 2 2 (ms 100)
           [(raster 2 2 1, ms 0)] [(raster 2 2 3, ms 300)]
           (raster 3 3 2) (ms 250) 3).
  - unfold ms. lia.
  - reflexivity.
  - discriminate.
  - repeat constructor.
  - left. cbn. lia.
  - vm_compute. lia.
Defined.

(** * [process_bag] *)

Section Released.

Variable cv2 : Cv2.

Lemma push_frame_unreleased img w :
  unreleased w -> unreleased (push_frame cv2 img w).1.
Proof.
  intros Hw. unfold push_frame, VideoWriter_write.
  destruct w as [vw|].
  - specialize (Hw vw eq_refl).
    destruct (negb (vw_opened vw)); [intros ? [= <-]; assumption|].
    destruct (same_geometry vw img); [intros ? [= <-]; assumption|].
    destruct (cv2_mismatch cv2); intros ? [= <-]; assumption.
  - cbn. destruct (cv2_opens cv2 (img_w img) (img_h img)); cbn;
      [|intros ? [= <-]; reflexivity].
    destruct (same_geometry _ img); cbn; [intros ? [= <-]; reflexivity|].
    destruct (cv2_mismatch cv2); intros ? [= <-]; reflexivity.
Qed.

Lemma loop_unreleased fuel t :
  forall e h nt st h',
    next_target_ts_ns h = Some nt ->
    video_start_ts h = Some st ->
    csv_closes h = 0%nat ->
    unreleased (writer h) ->
    final (emit_frozen_loop cv2 fuel t e h) = Some h' ->
    unreleased (writer h').
Proof.
  induction fuel as [|fuel IH]; intros e h nt st h' Hnt Hst Hcl Hw;
    rewrite emit_frozen_loop_eq, Hnt.
  - destruct (last_frame_bgr h); [destruct (nt <? t)|]; cbn;
      intros [= <-]; assumption.
  - destruct (last_frame_bgr h) as [last|]; [destruct (nt <? t)|];
      [|intros [= <-]; assumption..].
    rewrite push_frame_bind.
    pose proof (push_frame_unreleased last _ Hw) as Hw1.
    destruct (push_frame cv2 last (writer h)) as [w1 [ex|]]; cbn in Hw1.
    + cbn. intros [= <-]. exact Hw1.
    + rewrite (repeat_round _ w1 h nt st Hnt Hst Hcl).
      apply (IH _ _ (nt + period_ns h) st); auto.
Qed.

Lemma ingest_unreleased p fuel img t h h' :
  steady p h -> unreleased (writer h) ->
  final (ingest cv2 fuel img t h) = Some h' -> unreleased (writer h').
Proof.
  intros Hh Hw.
  destruct (steady_clock p t h Hh) as (st & nt & Hnt & Hvs & _).
  pose proof (se_closes _ _ (st_settled _ _ Hh)) as Hcl.
  assert (Hsame : writer (start_clock t h) = writer h /\
                  csv_closes (start_clock t h) = csv_closes h).
  { unfold start_clock. destruct (first_img_seen h); cbn; auto. }
  destruct Hsame as (Ew & Ec). rewrite <- Ew in Hw. rewrite <- Ec in Hcl.
  rewrite ingest_eq. unfold bind at 1.
  pose proof (loop_unreleased fuel t 0 (start_clock t h) nt st) as Hloop.
  pose proof (loop_spec cv2 fuel t 0 (start_clock t h) nt st Hnt Hvs Hcl) as Hspec.
  destruct (emit_frozen_loop cv2 fuel t 0 (start_clock t h)) as [e h1|ex h1|];
    [| |discriminate].
  - specialize (Hloop h1 Hnt Hvs Hcl Hw eq_refl).
    destruct Hspec as (k & _ & Ha & Hk & _).
    rewrite push_frame_bind.
    pose proof (push_frame_unreleased img _ Hloop) as Hw1.
    destruct (push_frame cv2 img (writer h1)) as [w1 [ex|]]; cbn in Hw1.
    + cbn. intros [= <-]. exact Hw1.
    + rewrite (real_round w1 img t h1 _ st (adv_next _ _ _ _ _ Ha)).
      * cbn. intros [= <-]. exact Hw1.
      * rewrite (kept_start _ _ Hk). assumption.
      * rewrite (adv_closes _ _ _ _ _ Ha). assumption.
  - cbn. intros [= <-]. apply (Hloop h1 Hnt Hvs Hcl Hw eq_refl).
Qed.

End Released.

Lemma bag_period_eq : bag_period = 25000000.
Proof. reflexivity. Qed.

Lemma bag_ok_open topics hs : bag_ok topics hs -> bag_open hs.
Proof.
  intros Hok topic h Hh. destruct (Hok topic _ Hh) as (_ & Hs & Hw).
  split; [apply (se_closes _ _ (st_settled _ _ Hs))|exact Hw].
Qed.

Lemma bag_ok_insert topics hs topic hd :
  bag_ok topics hs ->
  match hd with
  | HImageTopic h =>
      topics !! topic = Some IMAGE /\ steady bag_period h /\
      unreleased (writer h)
  | _ => topics !! topic <> Some IMAGE
  end ->
  bag_ok topics (<[topic := hd]> hs).
Proof.
  intros Hok Hhd topic' hd' Hl.
  destruct (decide (topic = topic')) as [<-|Hne].
  - rewrite lookup_insert_eq in Hl. injection Hl as <-. exact Hhd.
  - rewrite lookup_insert_ne in Hl by assumption. apply (Hok topic' hd' Hl).
Qed.

Lemma bag_open_insert hs topic hd :
  bag_open hs ->
  (forall h, hd = HImageTopic h -> csv_closes h = 0%nat /\ unreleased (writer h)) ->
  bag_open (<[topic := hd]> hs).
Proof.
  intros Hop Hhd topic' h Hl.
  destruct (decide (topic = topic')) as [<-|Hne].
  - rewrite lookup_insert_eq in Hl. injection Hl as ->. apply Hhd. reflexivity.
  - rewrite lookup_insert_ne in Hl by assumption. apply (Hop topic' h Hl).
Qed.

Section Bag.

Variable cv2 : Cv2.
Variable fuel : nat.
Variable topics : gmap string string.

Lemma dispatch_ok topic msg t hs hd :
  bag_ok topics hs -> hs !! topic = Some hd ->
  match at_topic topic (Handler_handle_msg cv2 fuel msg t) hs with
  | Ret _ hs' => bag_ok topics hs'
  | Raise _ hs' => bag_open hs'
  | Timeout => True
  end.
Proof.
  intros Hok Hl. unfold at_topic. rewrite Hl.
  pose proof (Hok topic hd Hl) as Hhd.
  pose proof (bag_ok_open topics hs Hok) as Hop.
  destruct hd as [c|c|h]; cbn.
  - apply bag_ok_insert; assumption.
  - unfold DiagnosticArrayHandler_handle_msg.
    destruct (msg_status msg); cbn.
    + apply bag_ok_insert; assumption.
    + apply bag_open_insert; [assumption|discriminate].
  - destruct Hhd as (Hty & Hs & Hw). unfold on_variant, handle_msg.
    destruct (msg_image msg) as [img|].
    + pose proof (ingest_steady cv2 bag_period fuel img t h Hs) as Hstep.
      pose proof (ingest_unreleased cv2 bag_period fuel img t h) as Hrel.
      destruct (ingest cv2 fuel img t h) as [[] h'|ex h'|]; [| |exact I].
      * apply bag_ok_insert; [assumption|]. auto.
      * apply bag_open_insert; [assumption|]. intros ? [= <-].
        split; [apply (se_closes _ _ Hstep)|]. auto.
    + cbn. apply bag_open_insert; [assumption|]. intros ? [= <-].
      split; [apply (se_closes _ _ (st_settled _ _ Hs))|assumption].
Qed.

Lemma read_loop_cons r rest hs :
  read_loop cv2 fuel topics (r :: rest) hs =
  match topics !! rec_topic r with
  | None => Raise KeyError hs
  | Some ty =>
      match
        match hs !! rec_topic r with
        | Some _ => Ret tt hs
        | None =>
            match new_handler ty (rec_data r) hs with
            | Ret hd hs' => Ret tt (<[rec_topic r := hd]> hs')
            | Raise e hs' => Raise e hs'
            | Timeout => Timeout
            end
        end
      with
      | Ret _ hs1 =>
          match at_topic (rec_topic r)
                  (Handler_handle_msg cv2 fuel (rec_data r) (rec_t r)) hs1 with
          | Ret _ hs2 => read_loop cv2 fuel topics rest hs2
          | Raise e hs2 => Raise e hs2
          | Timeout => Timeout
          end
      | Raise e hs1 => Raise e hs1
      | Timeout => Timeout
      end
  end.
Proof.
  cbn [read_loop]. destruct (topics !! rec_topic r) as [ty|]; [|reflexivity].
  unfold PROCESS_IMAGES. cbn [negb]. rewrite andb_false_r.
  unfold bind, get. destruct (hs !! rec_topic r); [reflexivity|].
  destruct (new_handler ty (rec_data r) hs); reflexivity.
Qed.

Lemma new_handler_ok ty msg topic hs :
  bag_ok topics hs -> topics !! topic = Some ty ->
  match new_handler ty msg hs with
  | Ret hd hs' => hs' = hs /\ bag_ok topics (<[topic := hd]> hs)
  | Raise _ hs' => hs' = hs
  | Timeout => False
  end.
Proof.
  intros Hok Hty. unfold new_handler, PROCESS_IMAGES. cbn [andb].
  destruct (String.eqb_spec ty IMAGE) as [->|Hne].
  - cbn. split; [reflexivity|]. apply bag_ok_insert; [assumption|].
    split; [assumption|]. split; [apply steady_init|]. intros vw. discriminate.
  - assert (topics !! topic <> Some IMAGE) by congruence.
    destruct (String.eqb ty DIAGNOSTICS).
    + destruct (DiagnosticArrayHandler_handler_from_msg msg); cbn;
        [|reflexivity].
      split; [reflexivity|]. apply bag_ok_insert; assumption.
    + cbn. split; [reflexivity|]. apply bag_ok_insert; assumption.
Qed.

Theorem read_loop_ok records :
  forall hs,
    bag_ok topics hs ->
    match read_loop cv2 fuel topics records hs with
    | Ret _ hs' => bag_ok topics hs'
    | Raise _ hs' => bag_open hs'
    | Timeout => True
    end.
Proof.
  induction records as [|r rest IH]; intros hs Hok; [exact Hok|].
  rewrite read_loop_cons.
  destruct (topics !! rec_topic r) as [ty|] eqn:Hty;
    [|apply (bag_ok_open topics), Hok].
  assert (Hpre :
    match
      match hs !! rec_topic r with
      | Some _ => Ret tt hs
      | None =>
          match new_handler ty (rec_data r) hs with
          | Ret hd hs' => Ret tt (<[rec_topic r := hd]> hs')
          | Raise e hs' => Raise e hs'
          | Timeout => Timeout
          end
      end
    with
    | Ret _ hs1 => bag_ok topics hs1 /\ is_Some (hs1 !! rec_topic r)
    | Raise _ hs1 => bag_open hs1
    | Timeout => False
    end).
  { destruct (hs !! rec_topic r) as [hd|] eqn:Hl; [split; eauto|].
    pose proof (new_handler_ok ty (rec_data r) (rec_topic r) hs Hok Hty) as Hn.
    destruct (new_handler ty (rec_data r) hs) as [hd hs'|e hs'|];
      [|subst; apply (bag_ok_open topics), Hok|contradiction].
    destruct Hn as [-> Hn]. split; [exact Hn|].
    rewrite lookup_insert_eq. eauto. }
  destruct (match hs !! rec_topic r with Some _ => _ | None => _ end)
    as [[] hs1|e hs1|]; [|exact Hpre|contradiction].
  destruct Hpre as [Hok1 [hd Hl1]].
  pose proof (dispatch_ok (rec_topic r) (rec_data r) (rec_t r) hs1 hd Hok1 Hl1)
    as Hd.
  destruct (at_topic _ _ hs1) as [[] hs2|e hs2|]; [|exact Hd|exact I].
  apply IH, Hd.
Qed.

Lemma read_loop_app pre rest hs :
  read_loop cv2 fuel topics (pre ++ rest) hs =
  match read_loop cv2 fuel topics pre hs with
  | Ret _ hs1 => read_loop cv2 fuel topics rest hs1
  | Raise e hs1 => Raise e hs1
  | Timeout => Timeout
  end.
Proof.
  revert hs. induction pre as [|r pre IH]; intros hs; [reflexivity|].
  rewrite <- app_comm_cons, !read_loop_cons.
  destruct (topics !! rec_topic r); [|reflexivity].
  destruct (match hs !! rec_topic r with Some _ => _ | None => _ end)
    as [[] hs1|e hs1|]; try reflexivity.
  destruct (at_topic _ _ hs1) as [[] hs2|e hs2|]; try reflexivity.
  apply IH.
Qed.

Lemma bag_ok_empty : bag_ok topics ∅.
Proof. intros topic hd Hl. rewrite lookup_empty in Hl. discriminate. Qed.

End Bag.

(** ** A message that cannot be decoded *)

(** C7, as stated, fails: after the message that does not decode, the one
    that follows is not processed.  The run ends in the decoding error with
    the one row written before it, where the same records without the bad
    one give two rows. *)
Lemma decode_failure_counterexample :
  raised (process_bag ffmpeg 0 camera_topics [good_frame; bad_frame; late_frame])
  = Some CvBridgeError /\
  csv_rows <$> image_handler_of camera
                 (process_bag ffmpeg 0 camera_topics
                              [good_frame; bad_frame; late_frame])
  = Some [real_row 0 (ms 0) (ms 0)] /\
  csv_rows <$> image_handler_of camera
                 (process_bag ffmpeg 0 camera_topics [good_frame; late_frame])
  = Some [real_row 0 (ms 0) (ms 0); real_row 1 (ms 20) (ms 20)].
Proof.
  split; [|split]; vm_compute; reflexivity.
Qed.

(** C7, amended.  When a message of an image topic does not decode,
    [handle_msg] raises at once and leaves the handler as it was: nothing
    goes to the sink or to the sidecar, and no attribute changes.  Nothing
    catches the exception: [process_bag] ends with it, the handlers being
    what the records before had made them (with a fresh handler for the
    topic, if this was its first message); the records after it are not
    read, and nothing is closed. *)
Theorem decode_failure_ends_the_run (cv2 : Cv2) (fuel : nat)
    (topics : gmap string string) (pre post : list BagRecord) (r : BagRecord)
    (hs : gmap string Handler) :
  topics !! rec_topic r = Some IMAGE ->
  msg_image (rec_data r) = None ->
  read_loop cv2 fuel topics pre ∅ = Ret tt hs ->
  (forall h, handle_msg cv2 fuel (rec_data r) (rec_t r) h = Raise CvBridgeError h) /\
  process_bag cv2 fuel topics (pre ++ r :: post)
  = Raise CvBridgeError
      (<[rec_topic r := HImageTopic (handler_for hs (rec_topic r))]> hs).
Proof.
  intros Hty Hbad Hpre. split.
  { intros h. unfold handle_msg. rewrite Hbad. reflexivity. }
  pose proof (read_loop_ok cv2 fuel topics pre ∅ (bag_ok_empty topics)) as Hok.
  rewrite Hpre in Hok.
  unfold process_bag, bind. rewrite read_loop_app, Hpre, read_loop_cons, Hty.
  unfold handler_for.
  destruct (hs !! rec_topic r) as [hd|] eqn:Hl.
  - pose proof (Hok _ _ Hl) as Hhd.
    destruct hd as [c|c|h]; [contradiction|contradiction|].
    unfold at_topic. rewrite Hl. cbn. unfold on_variant, handle_msg.
    rewrite Hbad. reflexivity.
  - unfold new_handler, PROCESS_IMAGES. cbn [andb].
    rewrite String.eqb_refl. cbn [ret].
    unfold at_topic. rewrite lookup_insert_eq. cbn.
    unfold on_variant, handle_msg. rewrite Hbad. cbn.
    rewrite insert_insert_eq. reflexivity.
Qed.

Lemma decode_failure_ends_the_run_witness :
  (forall h, handle_msg ffmpeg 0 (rec_data bad_frame) (rec_t bad_frame) h
             = Raise CvBridgeError h) /\
  process_bag ffmpeg 0 camera_topics ([good_frame] ++ bad_frame :: [late_frame])
  = Raise CvBridgeError
      (<[rec_topic bad_frame :=
           HImageTopic
             (handler_for
                (<[camera := HImageTopic
                                (state_after ffmpeg 0 bag_period
                                             [(raster 2 2 1, ms 0)])]> ∅)
                (rec_topic bad_frame))]>
         (<[camera := HImageTopic
                        (state_after ffmpeg 0 bag_period
                                     [(raster 2 2 1, ms 0)])]> ∅)).
Proof.
  apply (decode_failure_ends_the_run ffmpeg 0 camera_topics [good_frame]
           [late_frame] bad_frame).
  - vm_compute. reflexivity.
  - reflexivity.
  - vm_compute. reflexivity.
Defined.

(** ** Closing the outputs *)

(** C8, as stated, fails: when handling a message raises, the run ends with
    the sidecar of the image handler not closed and its writer open and
    unreleased. *)
Lemma release_on_error_counterexample :
  raised (process_bag ffmpeg 0 camera_topics [good_frame; bad_frame])
  = Some CvBridgeError /\
  csv_closes <$> image_handler_of camera
                   (process_bag ffmpeg 0 camera_topics [good_frame; bad_frame])
  = Some 0%nat /\
  writer_state <$> image_handler_of camera
                     (process_bag ffmpeg 0 camera_topics [good_frame; bad_frame])
  = Some (Some (true, 0%nat)).
Proof.
  split; [|split]; vm_compute; reflexivity.
Qed.

(** C8, amended.  [close] runs in the loop after the read loop and nowhere
    else.  When the records run out, every image handler has had its sidecar
    closed once and its writer, if it has one, released once.  When handling
    a message raises, [process_bag] ends with the exception and no image
    handler has been closed or released. *)
Theorem release_only_at_end_of_stream (cv2 : Cv2) (fuel : nat)
    (topics : gmap string string) (records : list BagRecord) :
  match process_bag cv2 fuel topics records with
  | Ret _ hs =>
      forall topic h,
        hs !! topic = Some (HImageTopic h) ->
        csv_closes h = 1%nat /\
        forall vw, writer h = Some vw ->
                   vw_releases vw = 1%nat /\ vw_opened vw = false
  | Raise _ hs =>
      forall topic h,
        hs !! topic = Some (HImageTopic h) ->
        csv_closes h = 0%nat /\
        forall vw, writer h = Some vw -> vw_releases vw = 0%nat
  | Timeout => True
  end.
Proof.
  pose proof (read_loop_ok cv2 fuel topics records ∅ (bag_ok_empty topics)) as Hok.
  unfold process_bag, bind.
  destruct (read_loop cv2 fuel topics records ∅) as [[] hs|e hs|];
    [|exact Hok|exact I].
  cbn. intros topic h Hl. rewrite lookup_fmap in Hl.
  destruct (hs !! topic) as [hd|] eqn:Hhd; [|discriminate].
  cbn in Hl. injection Hl as Hl.
  destruct hd as [c|c|h0]; try discriminate. cbn in Hl. injection Hl as <-.
  destruct (Hok topic _ Hhd) as (_ & Hs & Hw).
  pose proof (se_closes _ _ (st_settled _ _ Hs)) as Hcl.
  unfold close. destruct (writer h0) as [vw0|] eqn:Hwr; cbn.
  - rewrite Hcl. split; [reflexivity|]. intros vw [= <-]. cbn.
    rewrite (Hw vw0 eq_refl). auto.
  - rewrite Hcl, Hwr. split; [reflexivity|]. discriminate.
Qed.

(** * Fuel *)

Lemma bind_ext_ends {St A B} (c : Prog St A) (k1 k2 : A -> Prog St B) s :
  (forall a s', k1 a s' <> Timeout -> k2 a s' = k1 a s') ->
  bind c k1 s <> Timeout -> bind c k2 s = bind c k1 s.
Proof. unfold bind. destruct (c s); auto. Qed.

Lemma bind_head_ends {St A B} (c1 c2 : Prog St A) (k : A -> Prog St B) s :
  (c1 s <> Timeout -> c2 s = c1 s) ->
  bind c1 k s <> Timeout -> bind c2 k s = bind c1 k s.
Proof.
  unfold bind. intros Hc Hne.
  destruct (c1 s) eqn:E; try congruence; rewrite Hc; congruence.
Qed.

Section Fuel.

Variable cv2 : Cv2.

(** A loop that ends within its fuel does the same with more. *)
Lemma emit_frozen_loop_more fuel :
  forall t e h,
    emit_frozen_loop cv2 fuel t e h <> Timeout ->
    emit_frozen_loop cv2 (S fuel) t e h = emit_frozen_loop cv2 fuel t e h.
Proof.
  induction fuel as [|fuel IH]; intros t e h.
  - rewrite (emit_frozen_loop_eq cv2 0), (emit_frozen_loop_eq cv2 1).
    destruct (next_target_ts_ns h) as [nt|]; [|reflexivity].
    destruct (last_frame_bgr h); [|reflexivity].
    destruct (nt <? t); [congruence|reflexivity].
  - rewrite (emit_frozen_loop_eq cv2 (S fuel)),
      (emit_frozen_loop_eq cv2 (S (S fuel))).
    destruct (next_target_ts_ns h) as [nt|]; [|reflexivity].
    destruct (last_frame_bgr h); [|reflexivity].
    destruct (nt <? t); [|reflexivity].
    intros Hne.
    repeat (apply bind_ext_ends; [intros ? ? ?|assumption]).
    apply IH. assumption.
Qed.

Lemma ingest_more fuel img t h :
  ingest cv2 fuel img t h <> Timeout ->
  ingest cv2 (S fuel) img t h = ingest cv2 fuel img t h.
Proof.
  rewrite !ingest_eq. apply bind_head_ends. apply emit_frozen_loop_more.
Qed.

Lemma ingest_all_more fuel frames :
  forall h,
    ingest_all cv2 fuel frames h <> Timeout ->
    ingest_all cv2 (S fuel) frames h = ingest_all cv2 fuel frames h.
Proof.
  induction frames as [|[img t] rest IH]; intros h; [reflexivity|].
  rewrite !ingest_all_cons. intros Hne.
  rewrite ingest_more by (destruct (ingest cv2 fuel img t h); congruence).
  destruct (ingest cv2 fuel img t h); auto.
Qed.

(** The outcome of a run that ends does not depend on the fuel it had. *)
Theorem ingest_all_fuel fuel fuel' frames h :
  (fuel <= fuel')%nat ->
  ingest_all cv2 fuel frames h <> Timeout ->
  ingest_all cv2 fuel' frames h = ingest_all cv2 fuel frames h.
Proof.
  induction 1 as [|fuel' Hle IH]; intros Hne; [reflexivity|].
  rewrite ingest_all_more; rewrite IH; auto.
Qed.

End Fuel.

(** * An image stream through [process_bag] *)

Section Stream.

Variable cv2 : Cv2.
Variable fuel : nat.
Variable topics : gmap string string.
Variable topic : string.
Hypothesis topic_is_image : topics !! topic = Some IMAGE.

Lemma read_loop_image_stream frames :
  forall h hs,
    hs !! topic = Some (HImageTopic h) ->
    read_loop cv2 fuel topics (image_records topic frames) hs =
    match ingest_all cv2 fuel frames h with
    | Ret _ h' => Ret tt (<[topic := HImageTopic h']> hs)
    | Raise e h' => Raise e (<[topic := HImageTopic h']> hs)
    | Timeout => Timeout
    end.
Proof.
  induction frames as [|[img t] rest IH]; intros h hs Hl.
  - cbn. unfold ret. rewrite insert_id by assumption. reflexivity.
  - change (image_records topic ((img, t) :: rest))
      with ({| rec_topic := topic; rec_data := image_msg (Some img);
               rec_t := t |} :: image_records topic rest).
    rewrite read_loop_cons, ingest_all_cons.
    cbn [rec_topic rec_data rec_t]. rewrite topic_is_image, Hl.
    unfold at_topic. rewrite Hl.
    cbn [Handler_handle_msg on_variant handle_msg image_msg msg_image].
    unfold on_variant, handle_msg. cbn [msg_image].
    destruct (ingest cv2 fuel img t h) as [[] h1|e h1|]; [|reflexivity..].
    rewrite (IH h1) by apply lookup_insert_eq.
    destruct (ingest_all cv2 fuel rest h1) as [[] h2|e h2|];
      rewrite ?insert_insert_eq; reflexivity.
Qed.

(** For a bag that holds one image topic, [process_bag] is the run of the
    handler on the frames, from a fresh handler at 40 frames per second,
    followed by [close] if the run returns. *)
Theorem process_bag_image_stream frames :
  frames <> [] ->
  process_bag cv2 fuel topics (image_records topic frames) =
  match ingest_all cv2 fuel frames (ImageTopicHandler_init bag_period) with
  | Ret _ h' => Ret tt {[ topic := HImageTopic (close h') ]}
  | Raise e h' => Raise e {[ topic := HImageTopic h' ]}
  | Timeout => Timeout
  end.
Proof.
  intros Hne. destruct frames as [|[img t] rest]; [congruence|].
  unfold process_bag, bind.
  assert (Hfirst :
    read_loop cv2 fuel topics (image_records topic ((img, t) :: rest)) ∅ =
    read_loop cv2 fuel topics (image_records topic ((img, t) :: rest))
      (<[topic := HImageTopic (ImageTopicHandler_init bag_period)]> ∅)).
  { change (image_records topic ((img, t) :: rest))
      with ({| rec_topic := topic; rec_data := image_msg (Some img);
               rec_t := t |} :: image_records topic rest).
    rewrite !read_loop_cons. cbn [rec_topic rec_data rec_t].
    rewrite topic_is_image, lookup_empty, lookup_insert_eq.
    unfold new_handler, PROCESS_IMAGES. cbn [andb].
    rewrite String.eqb_refl. reflexivity. }
  rewrite Hfirst.
  rewrite (read_loop_image_stream _ (ImageTopicHandler_init bag_period))
    by apply lookup_insert_eq.
  destruct (ingest_all cv2 fuel ((img, t) :: rest) _) as [[] h'|e h'|];
    rewrite ?insert_insert_eq; [|reflexivity..].
  cbn. unfold modify. rewrite fmap_insert, fmap_empty. reflexivity.
Qed.

End Stream.

(** * Further properties of the image handler *)

(** X1. With a positive period and a sink that opens for the geometry all
    frames share, the run over the frames returns, the video has as many
    frames as the sidecar has rows, and frame [i] of the video holds the
    pixels of a source frame whose timestamp is the source timestamp of row
    [i]. *)
Theorem video_matches_sidecar (cv2 : Cv2) (w hh p : Z)
    (frames : list (Image * Z)) (fuel : nat) :
  0 < p ->
  cv2_opens cv2 w hh = true ->
  Forall (fun f => img_w f.1 = w /\ img_h f.1 = hh) frames ->
  (enough_fuel p frames <= fuel)%nat ->
  exists h',
    ingest_all cv2 fuel frames (ImageTopicHandler_init p) = Ret tt h' /\
    length (sink_frames h') = length (csv_rows h') /\
    forall (i : nat) img r,
      sink_frames h' !! i = Some img -> csv_rows h' !! i = Some r ->
      exists t, source_timestamp_ns r = Some t /\ (img, t) ∈ frames.
Proof.
  intros Hp Hopen Hgeo Hfuel.
  destruct (ingest_all_returns cv2 w hh p fuel frames Hp Hopen Hgeo Hfuel)
    as (h' & Hrun & _ & _ & Hpairs).
  exists h'. split; [exact Hrun|]. split; [apply (Forall2_length _ _ _ Hpairs)|].
  intros i img r Hi Hr. apply (Forall2_lookup_lr _ _ _ i img r Hpairs Hi Hr).
Qed.

Lemma video_matches_sidecar_witness :
  exists h',
    ingest_all strict_sink 3 two_frames (ImageTopicHandler_init (ms 100))
    = Ret tt h' /\
    length (sink_frames h') = length (csv_rows h') /\
    forall (i : nat) img r,
      sink_frames h' !! i = Some img -> csv_rows h' !! i = Some r ->
      exists t, source_timestamp_ns r = Some t /\ (img, t) ∈ two_frames.
Proof.
  apply (video_matches_sidecar strict_sink 2 2 (ms 100) two_frames 3).
  - unfold ms. lia.
  - reflexivity.
  - repeat constructor.
  - vm_compute. lia.
Defined.

Lemma filter_repeat_rows k idx nt st src p :
  filter (fun r => is_repeat r = false) (repeat_rows k idx nt st src p) = [].
Proof.
  revert idx nt. induction k as [|k IH]; intros idx nt; [reflexivity|].
  cbn [repeat_rows]. rewrite filter_cons_False by (cbn; discriminate).
  apply IH.
Qed.

Lemma real_sources_call k t nt st h :
  real_sources (call_rows k t nt st h) = [Some t].
Proof.
  unfold real_sources, call_rows.
  rewrite filter_app, filter_repeat_rows. reflexivity.
Qed.

Lemma ingest_all_real_sources cv2 p fuel frames :
  forall h h',
    steady p h ->
    ingest_all cv2 fuel frames h = Ret tt h' ->
    real_sources (csv_rows h')
    = real_sources (csv_rows h) ++ (Some <$> (snd <$> frames)).
Proof.
  induction frames as [|[img t] rest IH]; intros h h' Hh Hrun.
  - cbn in Hrun. injection Hrun as <-. cbn. rewrite app_nil_r. reflexivity.
  - rewrite ingest_all_cons in Hrun.
    destruct (ingest_step cv2 p fuel img t h Hh) as (st & nt & _ & _ & _ & Hstep).
    destruct (ingest cv2 fuel img t h) as [[] h1|ex h1|]; try discriminate.
    destruct Hstep as (Hh1 & k & Hrows & _).
    rewrite (IH h1 h' Hh1 Hrun), Hrows.
    unfold real_sources at 1. rewrite filter_app, fmap_app.
    fold (real_sources (csv_rows h)).
    fold (real_sources (call_rows k t nt st h)).
    rewrite real_sources_call, <- app_assoc. reflexivity.
Qed.

(** X3. Every source frame is emitted once as a real row, in the order of
    arrival: in the sidecar of a run that returns, the real rows carry
    exactly the timestamps of the frames, one row per frame, and all other
    rows are repeats. *)
Theorem real_rows_are_the_frames (cv2 : Cv2) (p : Z)
    (frames : list (Image * Z)) (fuel : nat) (h' : ImageTopicHandler) :
  ingest_all cv2 fuel frames (ImageTopicHandler_init p) = Ret tt h' ->
  real_sources (csv_rows h') = Some <$> (snd <$> frames) /\
  length (filter (fun r => is_repeat r = false) (csv_rows h')) = length frames.
Proof.
  intros Hrun.
  pose proof (ingest_all_real_sources cv2 p fuel frames _ h' (steady_init p) Hrun)
    as Hsrc.
  cbn in Hsrc. split; [exact Hsrc|].
  apply (f_equal length) in Hsrc. unfold real_sources in Hsrc.
  rewrite !length_fmap in Hsrc. exact Hsrc.
Qed.

Lemma real_rows_are_the_frames_witness :
  real_sources (csv_rows (state_after ffmpeg 3 (ms 100) two_frames))
  = Some <$> (snd <$> two_frames) /\
  length (filter (fun r => is_repeat r = false)
                 (csv_rows (state_after ffmpeg 3 (ms 100) two_frames)))
  = length two_frames.
Proof.
  apply (real_rows_are_the_frames ffmpeg (ms 100) two_frames 3).
  vm_compute. reflexivity.
Defined.

Lemma held_snoc rows r s :
  held rows ->
  (forall r0, last rows = Some r0 -> source_timestamp_ns r0 = s) ->
  (is_repeat r = true -> source_timestamp_ns r = s) ->
  held (rows ++ [r]).
Proof.
  intros Hheld Hlast Hr i r1 Hl Hrep.
  destruct (Nat.lt_ge_cases (S i) (length rows)) as [Hlt|Hge].
  - rewrite lookup_app_l in Hl by assumption.
    destruct (Hheld i r1 Hl Hrep) as (r' & Hi & Hs).
    exists r'. rewrite lookup_app_l by lia. auto.
  - rewrite lookup_app_r in Hl by assumption.
    destruct (S i - length rows)%nat as [|n] eqn:Hn; [|destruct n; discriminate].
    cbn in Hl. injection Hl as <-.
    assert (i = pred (length rows)) as -> by lia.
    rewrite lookup_app_l by lia. rewrite <- last_lookup.
    destruct (last rows) as [r0|] eqn:Hr0.
    + exists r0. split; [reflexivity|]. rewrite (Hlast r0 eq_refl), (Hr Hrep).
      reflexivity.
    + apply last_None in Hr0. subst rows. cbn in Hn. lia.
Qed.

Lemma held_repeats k : forall rows idx nt st s p,
  held rows ->
  (forall r0, last rows = Some r0 -> source_timestamp_ns r0 = s) ->
  held (rows ++ repeat_rows k idx nt st s p) /\
  (forall r0, last (rows ++ repeat_rows k idx nt st s p) = Some r0 ->
              source_timestamp_ns r0 = s).
Proof.
  induction k as [|k IH]; intros rows idx nt st s p Hheld Hlast.
  - cbn. rewrite app_nil_r. auto.
  - cbn [repeat_rows].
    rewrite (cons_middle _ rows), app_assoc.
    apply IH.
    + apply (held_snoc _ _ s); auto.
    + intros r0. rewrite last_snoc. intros [= <-]. reflexivity.
Qed.

Lemma ingest_held cv2 p fuel img t h :
  steady p h -> held (csv_rows h) ->
  (forall r0, last (csv_rows h) = Some r0 ->
              source_timestamp_ns r0 = last_source_ts_ns h) ->
  match ingest cv2 fuel img t h with
  | Ret _ h' =>
      held (csv_rows h') /\
      (forall r0, last (csv_rows h') = Some r0 ->
                  source_timestamp_ns r0 = last_source_ts_ns h')
  | Raise _ h' => held (csv_rows h')
  | Timeout => True
  end.
Proof.
  intros Hh Hheld Hlast.
  destruct (ingest_step cv2 p fuel img t h Hh) as (st & nt & _ & _ & _ & Hstep).
  destruct (ingest cv2 fuel img t h) as [[] h'|ex h'|]; [| |exact I].
  - destruct Hstep as (_ & k & Hrows & _ & _ & _ & _ & _ & Hls & _).
    rewrite Hrows, Hls. unfold call_rows. rewrite app_assoc.
    destruct (held_repeats k (csv_rows h) (frame_idx h) nt st
                (last_source_ts_ns h) (period_ns h) Hheld Hlast) as [Hh1 Hl1].
    split.
    + apply (held_snoc _ _ (last_source_ts_ns h)); auto. cbn. discriminate.
    + intros r0. rewrite last_snoc. intros [= <-]. reflexivity.
  - destruct Hstep as (_ & k & Hrows & _). rewrite Hrows.
    apply held_repeats; assumption.
Qed.

Lemma ingest_all_held cv2 p fuel frames :
  forall h h',
    steady p h -> held (csv_rows h) ->
    (forall r0, last (csv_rows h) = Some r0 ->
                source_timestamp_ns r0 = last_source_ts_ns h) ->
    final (ingest_all cv2 fuel frames h) = Some h' ->
    held (csv_rows h').
Proof.
  induction frames as [|[img t] rest IH]; intros h h' Hh Hheld Hlast Hfin.
  - cbn in Hfin. injection Hfin as <-. assumption.
  - rewrite ingest_all_cons in Hfin.
    pose proof (ingest_held cv2 p fuel img t h Hh Hheld Hlast) as Hstep.
    pose proof (ingest_steady cv2 p fuel img t h Hh) as Hh1.
    destruct (ingest cv2 fuel img t h) as [[] h1|ex h1|]; cbn in Hfin.
    + destruct Hstep. apply (IH h1 h'); assumption.
    + injection Hfin as <-. assumption.
    + discriminate.
Qed.

(** X4. Hold-last in the sidecar: a repeat is never the first row, and it
    names the same source frame as the row before it, so that reading up from
    a repeat one reaches the real frame whose pixels it shows.  This holds of
    every state a run ends in. *)
Theorem repeats_hold_the_row_before (cv2 : Cv2) (p : Z)
    (frames : list (Image * Z)) (fuel : nat) (h' : ImageTopicHandler) :
  final (ingest_all cv2 fuel frames (ImageTopicHandler_init p)) = Some h' ->
  forall (i : nat) r,
    csv_rows h' !! i = Some r -> is_repeat r = true ->
    exists (j : nat) r',
      i = S j /\ csv_rows h' !! j = Some r' /\
      source_timestamp_ns r' = source_timestamp_ns r.
Proof.
  intros Hfin i r Hi Hrep.
  pose proof (ingest_all_settled cv2 p fuel frames _ h' (steady_init p) Hfin) as Hs.
  assert (Hheld : held (csv_rows h')).
  { apply (ingest_all_held cv2 p fuel frames (ImageTopicHandler_init p) h');
      auto using steady_init.
    - intros j r0 Hl. discriminate.
    - intros r0 Hl. discriminate. }
  destruct i as [|j].
  - destruct (head_of_settled p h' r Hs) as [_ Hreal].
    + rewrite head_lookup. exact Hi.
    + congruence.
  - destruct (Hheld j r Hi Hrep) as (r' & Hj & Hsrc). eauto.
Qed.

Lemma repeats_hold_the_row_before_witness :
  exists (j : nat) r',
    1%nat = S j /\
    csv_rows (state_after ffmpeg 3 (ms 100) two_frames) !! j = Some r' /\
    source_timestamp_ns r'
    = source_timestamp_ns
        {| frame_index := 1; video_timestamp_ns := ms 100;
           source_timestamp_ns := Some (ms 0); is_repeat := true |}.
Proof.
  apply (repeats_hold_the_row_before ffmpeg (ms 100) two_frames 3
           (state_after ffmpeg 3 (ms 100) two_frames)).
  - vm_compute. reflexivity.
  - vm_compute. reflexivity.
  - reflexivity.
Defined.

Lemma ingest_all_origin cv2 p fuel frames :
  forall h h' st,
    steady p h -> first_img_seen h = true -> video_start_ts h = Some st ->
    final (ingest_all cv2 fuel frames h) = Some h' ->
    video_start_ts h' = Some st.
Proof.
  induction frames as [|[img t] rest IH]; intros h h' st Hh Hseen Hvs Hfin.
  - cbn in Hfin. injection Hfin as <-. assumption.
  - rewrite ingest_all_cons in Hfin.
    destruct (ingest_step cv2 p fuel img t h Hh) as (st' & nt & _ & Hold & _ & Hstep).
    rewrite (Hold Hseen) in Hvs. injection Hvs as ->.
    destruct (ingest cv2 fuel img t h) as [[] h1|ex h1|]; cbn in Hfin.
    + destruct Hstep as (Hh1 & k & _ & _ & _ & Hvs1 & Hseen1 & _).
      apply (IH h1 h'); assumption.
    + injection Hfin as <-. destruct Hstep as (_ & k & _ & Hvs1 & _).
      exact Hvs1.
    + discriminate.
Qed.

(** X5. The origin of the video timeline is set by the first frame and never
    moves: whatever frames follow, and whether the run returns or raises,
    [video_start_ts] is the timestamp of the first frame. *)
Theorem video_start_is_first_timestamp (cv2 : Cv2) (p : Z) (img0 : Image)
    (t0 : Z) (rest : list (Image * Z)) (fuel : nat) (h' : ImageTopicHandler) :
  final (ingest_all cv2 fuel ((img0, t0) :: rest) (ImageTopicHandler_init p))
  = Some h' ->
  video_start_ts h' = Some t0.
Proof.
  rewrite ingest_all_cons. intros Hfin.
  destruct (ingest_step cv2 p fuel img0 t0 _ (steady_init p))
    as (st & nt & _ & _ & Hfresh & Hstep).
  destruct (Hfresh eq_refl) as (-> & _).
  destruct (ingest cv2 fuel img0 t0 (ImageTopicHandler_init p))
    as [[] h1|ex h1|]; cbn in Hfin.
  - destruct Hstep as (Hh1 & k & _ & _ & _ & Hvs1 & Hseen1 & _).
    apply (ingest_all_origin cv2 p fuel rest h1 h' t0); assumption.
  - injection Hfin as <-. destruct Hstep as (_ & k & _ & Hvs1 & _).
    exact Hvs1.
  - discriminate.
Qed.

Lemma video_start_is_first_timestamp_witness :
  video_start_ts (state_after ffmpeg 3 (ms 100)
                    ((raster 2 2 1, ms 7) :: [(raster 2 2 2, ms 250)]))
  = Some (ms 7).
Proof.
  apply (video_start_is_first_timestamp ffmpeg (ms 100) (raster 2 2 1) (ms 7)
           [(raster 2 2 2, ms 250)] 3).
  vm_compute. reflexivity.
Defined.

Lemma repeats_due_unique k nt p t :
  0 < p -> ticks_before k nt p t -> t <= nt + Z.of_nat k * p ->
  Z.of_nat k = repeats_due nt p t.
Proof.
  intros Hp Hticks Hexit. unfold repeats_due.
  assert (Hq : (t - nt + p - 1) `div` p = Z.of_nat k \/
               (k = 0%nat /\ (t - nt + p - 1) `div` p <= 0)).
  { destruct k as [|k].
    - right. split; [reflexivity|].
      assert ((t - nt + p - 1) `div` p < 1); [|lia].
      apply Z.div_lt_upper_bound; lia.
    - left. specialize (Hticks k ltac:(lia)).
      symmetry. apply (Z.div_unique _ _ _ (t - nt + p - 1 - Z.of_nat (S k) * p));
        lia. }
  destruct Hq as [->|[-> Hq]]; lia.
Qed.

Lemma repeats_due_covers nt p t :
  0 < p -> t - nt <= repeats_due nt p t * p.
Proof.
  intros Hp. unfold repeats_due.
  pose proof (Z.div_mod (t - nt + p - 1) p ltac:(lia)).
  pose proof (Z.mod_pos_bound (t - nt + p - 1) p Hp).
  destruct (Z.max_spec 0 ((t - nt + p - 1) `div` p)) as [[? ->]|[? ->]]; nia.
Qed.

(** X2. The number of frozen frames.  Between calls, with the clock at [nt]
    and the sink ready for the frame held, [emit_frozen_frames_until t]
    returns the number of repeats it wrote, which is [(t - nt) / period]
    rounded up (none if the clock is not behind [t]); it writes that many
    rows and video frames, and leaves the clock on the first tick that is not
    before [t]. *)
Theorem frozen_frame_count (cv2 : Cv2) (w hh p : Z)
    (frames : list (Image * Z)) (fuel fuel' : nat) (h : ImageTopicHandler)
    (nt t : Z) :
  0 < p ->
  cv2_opens cv2 w hh = true ->
  Forall (fun f => img_w f.1 = w /\ img_h f.1 = hh) frames ->
  frames <> [] ->
  ingest_all cv2 fuel frames (ImageTopicHandler_init p) = Ret tt h ->
  next_target_ts_ns h = Some nt ->
  repeats_due nt p t <= Z.of_nat fuel' ->
  exists st h2,
    video_start_ts h = Some st /\
    emit_frozen_frames_until cv2 fuel' t h = Ret (repeats_due nt p t) h2 /\
    csv_rows h2
    = csv_rows h
      ++ repeat_rows (Z.to_nat (repeats_due nt p t)) (frame_idx h) nt st
                     (last_source_ts_ns h) p /\
    length (sink_frames h2)
    = (length (sink_frames h) + Z.to_nat (repeats_due nt p t))%nat /\
    next_target_ts_ns h2 = Some (nt + repeats_due nt p t * p) /\
    (nt < t -> t <= nt + repeats_due nt p t * p < t + p).
Proof.
  intros Hp Hopen Hgeo Hne Hrun Hnt Hfuel.
  assert (Hready0 : sink_ready cv2 w hh (ImageTopicHandler_init p))
    by (split; cbn; [assumption|discriminate|discriminate]).
  assert (Hsy0 : synced [] (ImageTopicHandler_init p))
    by (split; cbn; [constructor|discriminate]).
  pose proof (ingest_all_synced cv2 w hh p fuel frames Hgeo [] _
                (steady_init p) Hready0 Hsy0) as Hinv.
  rewrite Hrun in Hinv. destruct Hinv as (Hh & Hready & _).
  pose proof (ingest_all_emits cv2 p fuel frames h Hne Hrun) as Hrows.
  assert (Hseen : first_img_seen h = true).
  { destruct (first_img_seen h) eqn:Hs; [reflexivity|].
    destruct Hrows. apply (se_unseen _ _ (st_settled _ _ Hh) Hs). }
  destruct (st_started _ _ Hh Hseen) as (st & ts & Hvs & _ & Hlf & _).
  destruct (last_frame_bgr h) as [last|] eqn:Hlast; [|congruence].
  pose proof (se_closes _ _ (st_settled _ _ Hh)) as Hcl.
  pose proof (se_period _ _ (st_settled _ _ Hh)) as Hper.
  pose proof (loop_spec cv2 fuel' t 0 h nt st Hnt Hvs Hcl) as Hspec.
  pose proof (loop_sink cv2 w hh fuel' t 0 h nt st last Hnt Hvs Hcl Hlast Hready)
    as Hsink.
  pose proof (repeats_due_covers nt p t Hp) as Hcover.
  unfold emit_frozen_frames_until.
  destruct (emit_frozen_loop cv2 fuel' t 0 h) as [e h2|ex h2|];
    [|contradiction|rewrite Hper in Hspec; nia].
  destruct Hspec as (k & -> & Ha & _ & Hticks & _ & Hexit).
  rewrite Hper, Hlast in *. specialize (Hexit ltac:(discriminate)).
  pose proof (repeats_due_unique k nt p t Hp Hticks Hexit) as Hk.
  destruct Hsink as (_ & Hfr & _).
  rewrite (adv_idx _ _ _ _ _ Ha) in Hfr.
  replace (frame_idx h + Z.of_nat k - frame_idx h) with (Z.of_nat k) in Hfr by lia.
  rewrite Nat2Z.id in Hfr.
  exists st, h2. rewrite <- Hk, Nat2Z.id.
  split; [exact Hvs|]. split; [f_equal; lia|].
  split; [apply (adv_rows _ _ _ _ _ Ha)|].
  split; [rewrite Hfr, length_app, length_replicate; reflexivity|].
  split; [rewrite (adv_next _ _ _ _ _ Ha), Hper; reflexivity|].
  intros Hlt. split; [assumption|].
  destruct k as [|k]; [lia|]. specialize (Hticks k ltac:(lia)). lia.
Qed.

Lemma frozen_frame_count_witness :
  exists st h2,
    video_start_ts (state_after ffmpeg 0 (ms 100) [(raster 2 2 1, ms 0)])
    = Some st /\
    emit_frozen_frames_until ffmpeg 2 (ms 250)
      (state_after ffmpeg 0 (ms 100) [(raster 2 2 1, ms 0)])
    = Ret (repeats_due (ms 100) (ms 100) (ms 250)) h2 /\
    csv_rows h2
    = csv_rows (state_after ffmpeg 0 (ms 100) [(raster 2 2 1, ms 0)])
      ++ repeat_rows (Z.to_nat (repeats_due (ms 100) (ms 100) (ms 250)))
           (frame_idx (state_after ffmpeg 0 (ms 100) [(raster 2 2 1, ms 0)]))
           (ms 100) st
           (last_source_ts_ns
              (state_after ffmpeg 0 (ms 100) [(raster 2 2 1, ms 0)]))
           (ms 100) /\
    length (sink_frames h2)
    = (length (sink_frames
                 (state_after ffmpeg 0 (ms 100) [(raster 2 2 1, ms 0)]))
       + Z.to_nat (repeats_due (ms 100) (ms 100) (ms 250)))%nat /\
    next_target_ts_ns h2
    = Some (ms 100 + repeats_due (ms 100) (ms 100) (ms 250) * ms 100) /\
    (ms 100 < ms 250 ->
     ms 250 <= ms 100 + repeats_due (ms 100) (ms 100) (ms 250) * ms 100
     < ms 250 + ms 100).
Proof.
  apply (frozen_frame_count ffmpeg 2 2 (ms 100) [(raster 2 2 1, ms 0)] 0 2).
  - unfold ms. lia.
  - reflexivity.
  - repeat constructor.
  - discriminate.
  - vm_compute. reflexivity.
  - vm_compute. reflexivity.
  - vm_compute. discriminate.
Defined.

(** X7. When the video writer does not open for the first frame, the first
    call raises [RuntimeError] before anything is emitted: no sidecar row, no
    video frame, [frame_idx] still 0; the unopened writer stays in place and
    the run ends there. *)
Theorem unopened_writer_is_fatal (cv2 : Cv2) (p : Z) (img : Image) (t : Z)
    (rest : list (Image * Z)) (fuel : nat) :
  cv2_opens cv2 (img_w img) (img_h img) = false ->
  exists h',
    ingest_all cv2 fuel ((img, t) :: rest) (ImageTopicHandler_init p)
    = Raise RuntimeError h' /\
    csv_rows h' = [] /\ sink_frames h' = [] /\ frame_idx h' = 0 /\
    writer_state h' = Some (false, 0%nat).
Proof.
  intros Hopen. rewrite ingest_all_cons, ingest_eq.
  unfold bind at 1. rewrite emit_frozen_loop_eq. cbn [start_clock
    ImageTopicHandler_init first_img_seen next_target_ts_ns last_frame_bgr
    set_first_img_seen set_next_target_ts_ns set_video_start_ts].
  rewrite push_frame_bind.
  assert (Hpush : push_frame cv2 img None
                  = (Some (VideoWriter_new cv2 (img_w img) (img_h img)),
                     Some RuntimeError)).
  { unfold push_frame, VideoWriter_new. cbn. rewrite Hopen. reflexivity. }
  cbn [writer set_first_img_seen set_next_target_ts_ns set_video_start_ts
              ImageTopicHandler_init].
  rewrite Hpush.
  eexists. split; [reflexivity|]. cbn. unfold writer_state. cbn.
  rewrite Hopen. auto.
Qed.

Lemma unopened_writer_is_fatal_witness :
  exists h',
    ingest_all {| cv2_opens := fun _ _ => false; cv2_mismatch := MismatchDrops |}
               0 ((raster 2 2 1, ms 0) :: [(raster 2 2 2, ms 10)])
               (ImageTopicHandler_init (ms 100))
    = Raise RuntimeError h' /\
    csv_rows h' = [] /\ sink_frames h' = [] /\ frame_idx h' = 0 /\
    writer_state h' = Some (false, 0%nat).
Proof.
  apply (unopened_writer_is_fatal
           {| cv2_opens := fun _ _ => false; cv2_mismatch := MismatchDrops |}
           (ms 100) (raster 2 2 1) (ms 0) [(raster 2 2 2, ms 10)] 0).
  reflexivity.
Defined.

Lemma loop_hangs cv2 w hh fuel t :
  forall e h nt st last,
    next_target_ts_ns h = Some nt ->
    video_start_ts h = Some st ->
    csv_closes h = 0%nat ->
    last_frame_bgr h = Some last ->
    sink_ready cv2 w hh h ->
    period_ns h <= 0 -> nt < t ->
    emit_frozen_loop cv2 fuel t e h = Timeout.
Proof.
  induction fuel as [|fuel IH];
    intros e h nt st last Hnt Hst Hcl Hlast Hready Hp Hlt;
    rewrite emit_frozen_loop_eq, Hnt, Hlast;
    destruct (Z.ltb_spec nt t); try lia; [reflexivity|].
  rewrite push_frame_bind.
  destruct (sr_last _ _ _ _ Hready last Hlast) as [Hlw Hlh].
  destruct (push_frame_ready cv2 w hh last h Hready Hlw Hlh)
    as (vw & -> & Hopen & Hvw & Hvh & _).
  rewrite (repeat_round _ (Some vw) h nt st Hnt Hst Hcl).
  apply (IH _ _ (nt + period_ns h) st last); try assumption; try reflexivity.
  - destruct Hready as [Ho Hw Hl]. split; cbn; [assumption| |assumption].
    intros vw' [= <-]. auto.
  - lia.
Qed.

(** X8. A period that is not positive makes gap-filling endless.  With
    [period_ns <= 0] (a target rate above 2e9 frames per second rounds to a
    period of 0), a sink that takes the first frame, and a second frame later
    than the first, the loop of [emit_frozen_frames_until] never leaves: the
    clock does not advance towards the frame, and no amount of fuel ends the
    run. *)
Theorem nonpositive_period_never_ends (cv2 : Cv2) (p : Z) (img0 img1 : Image)
    (t0 t1 : Z) (rest : list (Image * Z)) :
  p <= 0 ->
  t0 < t1 ->
  cv2_opens cv2 (img_w img0) (img_h img0) = true ->
  forall fuel,
    ingest_all cv2 fuel ((img0, t0) :: (img1, t1) :: rest)
               (ImageTopicHandler_init p) = Timeout.
Proof.
  intros Hp Hlt Hopen fuel. rewrite ingest_all_cons.
  assert (Hready : sink_ready cv2 (img_w img0) (img_h img0)
                     (ImageTopicHandler_init p))
    by (split; cbn; [assumption|discriminate|discriminate]).
  pose proof (ingest_sink cv2 _ _ p fuel img0 t0 _ (steady_init p) Hready
                eq_refl eq_refl) as Hsink.
  pose proof (ingest_first cv2 p fuel img0 t0) as Hfirst.
  destruct (ingest_step cv2 p fuel img0 t0 _ (steady_init p))
    as (st & nt & Hnt & _ & Hfresh & Hstep).
  destruct (Hfresh eq_refl) as (-> & _). cbn in Hnt.
  destruct (ingest cv2 fuel img0 t0 (ImageTopicHandler_init p))
    as [[] h1|ex h1|]; [|contradiction|lia].
  destruct (Hfirst h1 eq_refl) as (Hh1 & _ & _ & Hnt1 & Hvs1 & Hseen1 & Hlf1 & _).
  destruct Hsink as [Hready1 _].
  rewrite ingest_all_cons, ingest_eq. unfold bind at 1.
  unfold start_clock. rewrite Hseen1.
  rewrite (loop_hangs cv2 (img_w img0) (img_h img0) fuel t1 0 h1 (t0 + p) t0
             img0); auto.
  - apply (se_closes _ _ (st_settled _ _ Hh1)).
  - rewrite (se_period _ _ (st_settled _ _ Hh1)). assumption.
  - lia.
Qed.

Lemma nonpositive_period_never_ends_witness :
  ingest_all ffmpeg 1000
    ((raster 2 2 1, ms 0) :: (raster 2 2 2, ms 10) :: [])
    (ImageTopicHandler_init (period_ns_of_fps 2000000001)) = Timeout.
Proof.
  apply (nonpositive_period_never_ends ffmpeg (period_ns_of_fps 2000000001)
           (raster 2 2 1) (raster 2 2 2) (ms 0) (ms 10) []).
  - vm_compute. discriminate.
  - reflexivity.
  - reflexivity.
Defined.

Section WriterKept.

Variable cv2 : Cv2.
Variable Q : option VideoWriter -> Prop.
Hypothesis Q_push : forall img w, Q w -> Q (push_frame cv2 img w).1.




End WriterKept.






Lemma prompt_repeat_rows p k : forall idx nt st src,
  0 < p -> nt - st = idx * p ->
  Forall (prompt p) (repeat_rows k idx nt st src p).
Proof.
  induction k as [|k IH]; intros idx nt st src Hp Hnt; [constructor|].
  cbn [repeat_rows]. constructor.
  - unfold prompt. cbn. nia.
  - apply IH; [assumption|]. lia.
Qed.

Lemma ingest_prompt cv2 p fuel img t h :
  0 < p -> steady p h -> paced p h ->
  Forall (prompt p) (csv_rows h) ->
  (forall ts, last_source_ts_ns h = Some ts -> ts + p <= t) ->
  match ingest cv2 fuel img t h with
  | Ret _ h' => paced p h' /\ Forall (prompt p) (csv_rows h')
  | Raise _ h' => Forall (prompt p) (csv_rows h')
  | Timeout => True
  end.
Proof.
  intros Hp Hh Hpaced Hrows Hgap.
  pose proof (se_period _ _ (st_settled _ _ Hh)) as Hper.
  destruct (ingest_step cv2 p fuel img t h Hh)
    as (st & nt & Hnt & Hold & Hfresh & Hstep).
  assert (Hreps : forall k,
            Forall (prompt p)
                   (repeat_rows k (frame_idx h) nt st (last_source_ts_ns h)
                                (period_ns h))).
  { intros k. rewrite Hper. apply prompt_repeat_rows; [assumption|]. lia. }
  destruct (ingest cv2 fuel img t h) as [[] h'|ex h'|]; [| |exact I].
  - destruct Hstep as (_ & k & Hr & Hidx & _ & Hvs & _ & _ & Hls & Hticks & Hz & _).
    assert (Hreal : (frame_idx h + Z.of_nat k - 1) * p < t - st).
    { destruct k as [|k].
      - destruct (first_img_seen h) eqn:Hseen.
        + destruct (st_started _ _ Hh Hseen) as (st' & ts & Hvs0 & Hls0 & _).
          rewrite (Hold eq_refl) in Hvs0. injection Hvs0 as <-.
          specialize (Hpaced st ts (Hold eq_refl) Hls0).
          specialize (Hgap ts Hls0). lia.
        + destruct (Hfresh eq_refl) as (-> & _ & -> & _). lia.
      - specialize (Hticks k ltac:(lia)). lia. }
    split.
    + intros st' ts Hvs' Hls'. rewrite Hvs in Hvs'. rewrite Hls in Hls'.
      injection Hvs' as <-. injection Hls' as <-. rewrite Hidx. lia.
    + rewrite Hr. unfold call_rows. rewrite !Forall_app.
      split; [assumption|]. split; [apply Hreps|].
      constructor; [|constructor]. unfold prompt. cbn. exact Hreal.
  - destruct Hstep as (_ & k & Hr & _). rewrite Hr, Forall_app.
    split; [assumption|apply Hreps].
Qed.

Lemma ingest_all_prompt cv2 p fuel frames :
  forall h h',
    0 < p -> steady p h -> paced p h ->
    Forall (prompt p) (csv_rows h) ->
    spaced p (option_list (last_source_ts_ns h) ++ (snd <$> frames)) = true ->
    final (ingest_all cv2 fuel frames h) = Some h' ->
    Forall (prompt p) (csv_rows h').
Proof.
  induction frames as [|[img t] rest IH];
    intros h h' Hp Hh Hpaced Hrows Hsp Hfin.
  - cbn in Hfin. injection Hfin as <-. assumption.
  - rewrite ingest_all_cons in Hfin.
    assert (Hgap : forall ts, last_source_ts_ns h = Some ts -> ts + p <= t).
    { intros ts Hls. rewrite Hls in Hsp. cbn in Hsp.
      apply andb_true_iff in Hsp. destruct Hsp as [Hle _]. lia. }
    assert (Hsp1 : spaced p (t :: (snd <$> rest)) = true).
    { destruct (last_source_ts_ns h); cbn in Hsp |- *; [|exact Hsp].
      apply andb_true_iff in Hsp. apply Hsp. }
    pose proof (ingest_prompt cv2 p fuel img t h Hp Hh Hpaced Hrows Hgap) as Hstep.
    pose proof (ingest_step cv2 p fuel img t h Hh) as (st & nt & _ & _ & _ & Hs).
    destruct (ingest cv2 fuel img t h) as [[] h1|ex h1|]; cbn in Hfin.
    + destruct Hstep as [Hpaced1 Hrows1].
      destruct Hs as (Hh1 & k & _ & _ & _ & _ & _ & _ & Hls & _).
      apply (IH h1 h'); try assumption. rewrite Hls. exact Hsp1.
    + injection Hfin as <-. assumption.
    + discriminate.
Qed.

(** X9. A source slower than the target rate keeps every row within one
    period of its tick.  When each frame comes at least one period after the
    one before, row [i] of the sidecar has its video timestamp in the
    half-open interval from tick [i - 1] (excluded) to tick [i] (included):
    the clock of the video never runs a whole period ahead of the source.
    This holds of every state a run ends in. *)
Theorem slow_source_stays_within_a_period (cv2 : Cv2) (p : Z)
    (frames : list (Image * Z)) (fuel : nat) (h' : ImageTopicHandler) :
  0 < p ->
  spaced p (snd <$> frames) = true ->
  final (ingest_all cv2 fuel frames (ImageTopicHandler_init p)) = Some h' ->
  Forall (fun r => (frame_index r - 1) * p < video_timestamp_ns r
                   /\ video_timestamp_ns r <= frame_index r * p)
         (csv_rows h').
Proof.
  intros Hp Hsp Hfin.
  pose proof (ingest_all_settled cv2 p fuel frames _ h' (steady_init p) Hfin)
    as Hs.
  assert (Hlow : Forall (prompt p) (csv_rows h')).
  { apply (ingest_all_prompt cv2 p fuel frames (ImageTopicHandler_init p) h');
      [assumption|apply steady_init| |constructor|exact Hsp|exact Hfin].
    intros st ts Hvs. discriminate. }
  destruct (first_img_seen h') eqn:Hseen.
  - destruct (se_clock _ _ Hs Hseen) as (st & _ & _ & Hok & _).
    rewrite Forall_forall in Hlow, Hok. apply Forall_forall. intros r Hr.
    split; [apply (Hlow r Hr)|].
    specialize (Hok r Hr). unfold row_ok in Hok.
    destruct (is_repeat r); [lia|apply Hok].
  - rewrite (se_unseen _ _ Hs Hseen). constructor.
Qed.

Lemma slow_source_stays_within_a_period_witness :
  Forall (fun r => (frame_index r - 1) * ms 100 < video_timestamp_ns r
                   /\ video_timestamp_ns r <= frame_index r * ms 100)
         (csv_rows (state_after ffmpeg 3 (ms 100) two_frames)).
Proof.
  apply (slow_source_stays_within_a_period ffmpeg (ms 100) two_frames 3).
  - unfold ms. lia.
  - vm_compute. reflexivity.
  - vm_compute. reflexivity.
Defined.

(** * The csv handlers *)

Lemma lookup_attr_NoDup attrs name a :
  NoDup (fst <$> attrs) -> (name, a) ∈ attrs ->
  lookup_attr attrs name = Some a.
Proof.
  induction attrs as [|[n b] rest IH]; intros Hnd Hin.
  - apply elem_of_nil in Hin. contradiction.
  - cbn in Hnd. apply NoDup_cons in Hnd. destruct Hnd as [Hn Hnd].
    cbn [lookup_attr]. apply elem_of_cons in Hin.
    destruct Hin as [[= -> ->]|Hin].
    + rewrite String.eqb_refl. reflexivity.
    + destruct (String.eqb_spec n name) as [->|Hne]; [|auto].
      exfalso. apply Hn. apply list_elem_of_fmap. exists (name, a). auto.
Qed.

(** X10. The first message of a plain topic fills the columns it defines.
    The header made by [handler_from_msg] is "timestamp" followed by the names
    of the public fields of the message; [handle_msg] on that message then
    writes the bag time followed by the value of each of these fields, in
    the same order.  A field that is itself called "timestamp" gets the bag
    time, not its own value. *)
Theorem first_message_fills_its_columns (msg : Msg) (t : Z) :
  NoDup (fst <$> msg_attrs msg) ->
  exists c,
    TopicHandlerCsv_handle_msg msg t (TopicHandlerCsv_handler_from_msg msg)
    = Ret tt c /\
    columns c = "timestamp"%string :: (fst <$> public_fields msg) /\
    out_rows c = [CInt t :: (own_cell t <$> public_fields msg)].
Proof.
  intros Hnd. eexists. split; [reflexivity|]. split; [reflexivity|].
  cbn. f_equal. f_equal. fold (public_fields msg).
  rewrite <- list_fmap_compose. apply list_fmap_ext.
  intros i [name a] Hi. cbn. unfold own_cell. cbn.
  destruct (String.eqb name "timestamp"); [reflexivity|].
  apply list_elem_of_lookup_2 in Hi. unfold public_fields in Hi.
  apply list_elem_of_filter in Hi. destruct Hi as [_ Hin].
  unfold getattr. rewrite (lookup_attr_NoDup _ _ _ Hnd Hin). reflexivity.
Qed.

Lemma first_message_fills_its_columns_witness :
  exists c,
    TopicHandlerCsv_handle_msg (fix_msg "48.15") 5
      (TopicHandlerCsv_handler_from_msg (fix_msg "48.15"))
    = Ret tt c /\
    columns c
    = "timestamp"%string :: (fst <$> public_fields (fix_msg "48.15")) /\
    out_rows c = [CInt 5 :: (own_cell 5 <$> public_fields (fix_msg "48.15"))].
Proof.
  apply (first_message_fills_its_columns (fix_msg "48.15") 5).
  apply (bool_decide_unpack _). vm_compute. exact I.
Defined.

Lemma last_value_cons k kv kvs :
  last_value k (kv :: kvs) =
  match last_value k kvs with
  | Some v => Some v
  | None => if decide (kv.1 = k) then Some kv.2 else None
  end.
Proof.
  unfold last_value. rewrite filter_cons.
  destruct (decide (kv.1 = k)); [rewrite fmap_cons; apply last_cons|].
  destruct (last _); reflexivity.
Qed.

Lemma kv_dict_lookup kvs : forall (d : gmap string Cell) k,
  foldl (fun d kv => <[kv.1 := CStr kv.2]> d) d kvs !! k =
  match last_value k kvs with
  | Some v => Some (CStr v)
  | None => d !! k
  end.
Proof.
  induction kvs as [|kv kvs IH]; intros d k; [reflexivity|].
  cbn [foldl]. rewrite IH, last_value_cons.
  destruct (last_value k kvs); [reflexivity|].
  destruct (decide (kv.1 = k)) as [<-|Hne].
  - apply lookup_insert_eq.
  - apply lookup_insert_ne. assumption.
Qed.

Lemma diagnostic_kv_dict_cell status t col :
  default (CStr EmptyString) (diagnostic_kv_dict status t !! col)
  = diagnostic_cell status t col.
Proof.
  unfold diagnostic_kv_dict, diagnostic_cell. rewrite kv_dict_lookup.
  destruct (last_value col (concat status)); [reflexivity|].
  destruct (String.eqb_spec col "timestamp") as [->|Hne].
  - rewrite lookup_singleton_eq. reflexivity.
  - rewrite lookup_singleton_ne by congruence. reflexivity.
Qed.

Lemma diagnostic_row_last_value_cell msg status t c :
  msg_status msg = Some status ->
  DiagnosticArrayHandler_handle_msg msg t c
  = Ret tt {| columns := columns c;
              out_rows := out_rows c
                          ++ [diagnostic_cell status t <$> columns c] |}.
Proof.
  intros Hst. unfold DiagnosticArrayHandler_handle_msg. rewrite Hst.
  unfold modify. do 4 f_equal. apply list_fmap_ext. intros i col _.
  apply diagnostic_kv_dict_cell.
Qed.

(** X11. In a diagnostic row the last value wins.  [handle_msg] of
    [DiagnosticArrayHandler] writes one row; in the column of a key it puts
    the value of the last pair with that key, over all statuses of the
    message in order; a column no pair names is left empty.  The column
    "timestamp" holds the bag time only when no pair is keyed "timestamp":
    such a pair overwrites it. *)
Theorem diagnostic_row_last_value_wins (msg : Msg)
    (status : list (list (string * string))) (t : Z) (c : TopicHandlerCsv) :
  msg_status msg = Some status ->
  DiagnosticArrayHandler_handle_msg msg t c
  = Ret tt {| columns := columns c;
              out_rows := out_rows c
                          ++ [diagnostic_cell status t <$> columns c] |}.
Proof. apply diagnostic_row_last_value_cell. Qed.

Lemma diagnostic_row_last_value_wins_witness :
  DiagnosticArrayHandler_handle_msg (diag_msg network_status) 5
    {| columns := ["timestamp"; "bitrate"; "rssi"; "snr"]%string;
       out_rows := [] |}
  = Ret tt {| columns := ["timestamp"; "bitrate"; "rssi"; "snr"]%string;
              out_rows := [] ++ [diagnostic_cell network_status 5
                                   <$> ["timestamp"; "bitrate"; "rssi";
                                        "snr"]%string] |}.
Proof.
  apply (diagnostic_row_last_value_wins (diag_msg network_status)
           network_status 5
           {| columns := ["timestamp"; "bitrate"; "rssi"; "snr"]%string;
              out_rows := [] |}).
  reflexivity.
Defined.

Lemma key_le_total : Total key_le.
Proof.
  intros a b. unfold key_le.
  destruct (String.leb_total a b) as [H|H]; rewrite H; cbn; auto.
Qed.

(** X12. The columns of a diagnostic topic.  [handler_from_msg] of
    [DiagnosticArrayHandler] makes the header "timestamp" followed by the
    keys of the message: each key once, whatever the number of pairs and
    statuses that carry it, in ascending order of [str]; and nothing else. *)
Theorem diagnostic_columns_are_the_sorted_keys (msg : Msg)
    (status : list (list (string * string))) :
  msg_status msg = Some status ->
  exists keys,
    DiagnosticArrayHandler_handler_from_msg msg
    = Some {| columns := "timestamp"%string :: keys; out_rows := [] |} /\
    Sorted key_le keys /\ NoDup keys /\
    forall k, k ∈ keys <-> k ∈ fst <$> concat status.
Proof.
  intros Hst. unfold DiagnosticArrayHandler_handler_from_msg. rewrite Hst.
  eexists. split; [reflexivity|].
  fold key_le.
  pose proof (merge_sort_Permutation key_le
                (remove_dups (fst <$> concat status))) as Hperm.
  split; [apply (@Sorted_merge_sort _ key_le _ key_le_total)|].
  split.
  - rewrite Hperm. apply NoDup_remove_dups.
  - intros k. rewrite Hperm. apply elem_of_remove_dups.
Qed.

Lemma diagnostic_columns_are_the_sorted_keys_witness :
  exists keys,
    DiagnosticArrayHandler_handler_from_msg (diag_msg network_status)
    = Some {| columns := "timestamp"%string :: keys; out_rows := [] |} /\
    Sorted key_le keys /\ NoDup keys /\
    forall k, k ∈ keys <-> k ∈ fst <$> concat network_status.
Proof.
  apply (diagnostic_columns_are_the_sorted_keys (diag_msg network_status)
           network_status).
  reflexivity.
Defined.

(** * The read loop, topic by topic *)

Lemma new_handler_pure ty msg (hs hs2 : gmap string Handler) :
  match new_handler ty msg hs with
  | Ret hd hs' => hs' = hs /\ new_handler ty msg hs2 = Ret hd hs2 /\
                  class_fits ty hd
  | Raise e hs' => hs' = hs /\ new_handler ty msg hs2 = Raise e hs2
  | Timeout => False
  end.
Proof.
  unfold new_handler, PROCESS_IMAGES. cbn [andb].
  destruct (String.eqb_spec ty IMAGE) as [->|Himg]; [cbn; auto|].
  destruct (String.eqb_spec ty DIAGNOSTICS) as [->|Hdiag].
  - destruct (DiagnosticArrayHandler_handler_from_msg msg); cbn; auto.
  - cbn. auto.
Qed.

Lemma handle_msg_class cv2 fuel ty msg t hd hd' :
  class_fits ty hd ->
  final (Handler_handle_msg cv2 fuel msg t hd) = Some hd' ->
  class_fits ty hd'.
Proof.
  intros Hc. destruct hd as [c|c|h]; cbn; unfold on_variant.
  - intros [= <-]. exact Hc.
  - destruct (DiagnosticArrayHandler_handle_msg msg t c); cbn;
      try discriminate; intros [= <-]; exact Hc.
  - destruct (handle_msg cv2 fuel msg t h); cbn;
      try discriminate; intros [= <-]; exact Hc.
Qed.

Section Topics.

Variable cv2 : Cv2.
Variable fuel : nat.
Variable topics : gmap string string.

Lemma handle_all_cons r rest hd :
  handle_all cv2 fuel (r :: rest) hd =
  match Handler_handle_msg cv2 fuel (rec_data r) (rec_t r) hd with
  | Ret _ hd' => handle_all cv2 fuel rest hd'
  | Raise e hd' => Raise e hd'
  | Timeout => Timeout
  end.
Proof. reflexivity. Qed.

Lemma handle_all_class ty records :
  forall hd hd',
    class_fits ty hd ->
    final (handle_all cv2 fuel records hd) = Some hd' ->
    class_fits ty hd'.
Proof.
  induction records as [|r rest IH]; intros hd hd' Hc.
  - cbn. intros [= <-]. exact Hc.
  - rewrite handle_all_cons.
    pose proof (handle_msg_class cv2 fuel ty (rec_data r) (rec_t r) hd) as Hstep.
    destruct (Handler_handle_msg cv2 fuel (rec_data r) (rec_t r) hd)
      as [[] hd1|e hd1|]; cbn.
    + apply IH. apply Hstep; [assumption|reflexivity].
    + intros [= <-]. apply Hstep; [assumption|reflexivity].
    + discriminate.
Qed.

(** One round of the read loop, by the handler it runs. *)
Lemma read_loop_step r rest hs :
  read_loop cv2 fuel topics (r :: rest) hs =
  match topics !! rec_topic r with
  | None => Raise KeyError hs
  | Some ty =>
      match
        match hs !! rec_topic r with
        | Some hd => Ret hd hs
        | None => new_handler ty (rec_data r) hs
        end
      with
      | Ret hd _ =>
          match Handler_handle_msg cv2 fuel (rec_data r) (rec_t r) hd with
          | Ret _ hd' =>
              read_loop cv2 fuel topics rest (<[rec_topic r := hd']> hs)
          | Raise e hd' => Raise e (<[rec_topic r := hd']> hs)
          | Timeout => Timeout
          end
      | Raise e _ => Raise e hs
      | Timeout => Timeout
      end
  end.
Proof.
  rewrite read_loop_cons.
  destruct (topics !! rec_topic r) as [ty|]; [|reflexivity].
  destruct (hs !! rec_topic r) as [hd|] eqn:Hl.
  - unfold at_topic. rewrite Hl.
    destruct (Handler_handle_msg cv2 fuel (rec_data r) (rec_t r) hd)
      as [[] hd'|e hd'|]; reflexivity.
  - pose proof (new_handler_pure ty (rec_data r) hs hs) as Hnew.
    destruct (new_handler ty (rec_data r) hs) as [hd hs'|e hs'|];
      [|destruct Hnew as [-> _]; reflexivity|contradiction].
    destruct Hnew as [-> _].
    unfold at_topic. rewrite lookup_insert_eq.
    destruct (Handler_handle_msg cv2 fuel (rec_data r) (rec_t r) hd)
      as [[] hd'|e hd'|]; rewrite ?insert_insert_eq; reflexivity.
Qed.

Lemma of_topic_cons topic r rest :
  of_topic topic (r :: rest) =
  if decide (rec_topic r = topic) then r :: of_topic topic rest
  else of_topic topic rest.
Proof. unfold of_topic. rewrite filter_cons. reflexivity. Qed.

(** What a returning read loop leaves under one topic. *)
Lemma read_loop_slot topic records :
  forall hs hs',
    read_loop cv2 fuel topics records hs = Ret tt hs' ->
    match hs !! topic, of_topic topic records with
    | Some hd, recs =>
        exists hd', handle_all cv2 fuel recs hd = Ret tt hd' /\
                    hs' !! topic = Some hd'
    | None, [] => hs' !! topic = None
    | None, r0 :: rest =>
        exists ty hd0 hd',
          topics !! topic = Some ty /\
          new_handler ty (rec_data r0) ∅ = Ret hd0 ∅ /\
          handle_all cv2 fuel (r0 :: rest) hd0 = Ret tt hd' /\
          hs' !! topic = Some hd'
    end.
Proof.
  induction records as [|r rest IH]; intros hs hs' Hrun.
  - cbn in Hrun. injection Hrun as <-. cbn.
    destruct (hs !! topic) as [hd|] eqn:Hl; [|reflexivity].
    exists hd. split; reflexivity.
  - rewrite read_loop_step in Hrun. rewrite of_topic_cons.
    destruct (topics !! rec_topic r) as [ty|] eqn:Hty; [|discriminate].
    destruct (decide (rec_topic r = topic)) as [Heq|Hne].
    + rewrite Heq in *.
      destruct (hs !! topic) as [hd|] eqn:Hl.
      * rewrite handle_all_cons.
        destruct (Handler_handle_msg cv2 fuel (rec_data r) (rec_t r) hd)
          as [[] hd1|e hd1|]; try discriminate.
        specialize (IH _ _ Hrun). rewrite lookup_insert_eq in IH. exact IH.
      * pose proof (new_handler_pure ty (rec_data r) hs ∅) as Hnew.
        destruct (new_handler ty (rec_data r) hs) as [hd hs1|e hs1|];
          try discriminate.
        destruct Hnew as (_ & Hnew & _).
        exists ty, hd. rewrite handle_all_cons.
        destruct (Handler_handle_msg cv2 fuel (rec_data r) (rec_t r) hd)
          as [[] hd1|e hd1|]; try discriminate.
        specialize (IH _ _ Hrun). rewrite lookup_insert_eq in IH.
        destruct IH as (hd' & Hall & Hl'). exists hd'. auto.
    + assert (Hkeep : forall hd1, <[rec_topic r := hd1]> hs !! topic = hs !! topic)
        by (intros hd1; apply lookup_insert_ne; assumption).
      destruct (match hs !! rec_topic r with Some hd => _ | None => _ end)
        as [hd hs1|e hs1|]; try discriminate.
      destruct (Handler_handle_msg cv2 fuel (rec_data r) (rec_t r) hd)
        as [[] hd1|e hd1|]; try discriminate.
      specialize (IH _ _ Hrun). rewrite Hkeep in IH. exact IH.
Qed.



(** What [process_bag] leaves under a topic it read. *)
Lemma process_bag_slot topic records hs r0 rest :
  process_bag cv2 fuel topics records = Ret tt hs ->
  of_topic topic records = r0 :: rest ->
  exists ty hd0 hd',
    topics !! topic = Some ty /\
    new_handler ty (rec_data r0) ∅ = Ret hd0 ∅ /\
    handle_all cv2 fuel (r0 :: rest) hd0 = Ret tt hd' /\
    hs !! topic = Some (close_image_handler hd').
Proof.
  unfold process_bag, bind. intros Hrun Hof.
  destruct (read_loop cv2 fuel topics records ∅) as [[] hs0|e hs0|] eqn:Hloop;
    try discriminate.
  cbn in Hrun. injection Hrun as <-.
  pose proof (read_loop_slot topic records ∅ hs0 Hloop) as Hslot.
  rewrite lookup_empty, Hof in Hslot.
  destruct Hslot as (ty & hd0 & hd' & Hty & Hnew & Hall & Hl).
  exists ty, hd0, hd'. rewrite lookup_fmap, Hl. auto.
Qed.

End Topics.














(** X18. One handler per topic read, of the class its type calls for.  When
    [process_bag] returns, the dict of handlers has an entry for a topic
    exactly when the bag holds a record of that topic, and the entry is an
    [ImageTopicHandler] for an image topic, a [DiagnosticArrayHandler] for a
    diagnostic array, and a [TopicHandlerCsv] for every other type. *)
Theorem one_handler_per_topic_read (cv2 : Cv2) (fuel : nat)
    (topics : gmap string string) (records : list BagRecord)
    (hs : gmap string Handler) (topic : string) :
  process_bag cv2 fuel topics records = Ret tt hs ->
  match hs !! topic with
  | None => of_topic topic records = []
  | Some hd =>
      of_topic topic records <> [] /\
      exists ty, topics !! topic = Some ty /\ class_fits ty hd
  end.
Proof.
  intros Hrun.
  destruct (of_topic topic records) as [|r0 rest] eqn:Hof.
  - unfold process_bag, bind in Hrun.
    destruct (read_loop cv2 fuel topics records ∅) as [[] hs0|e hs0|] eqn:Hloop;
      try discriminate.
    cbn in Hrun. injection Hrun as <-.
    pose proof (read_loop_slot cv2 fuel topics topic records ∅ hs0 Hloop) as Hslot.
    rewrite lookup_empty, Hof in Hslot.
    rewrite lookup_fmap, Hslot. reflexivity.
  - destruct (process_bag_slot cv2 fuel topics topic records hs r0 rest Hrun Hof)
      as (ty & hd0 & hd' & Hty & Hnew & Hall & ->).
    split; [discriminate|]. exists ty. split; [exact Hty|].
    pose proof (new_handler_pure ty (rec_data r0) ∅ ∅) as Hpure.
    rewrite Hnew in Hpure. destruct Hpure as (_ & _ & Hc0).
    assert (Hc : class_fits ty hd').
    { apply (handle_all_class cv2 fuel ty (r0 :: rest) hd0 hd' Hc0).
      rewrite Hall. reflexivity. }
    destruct hd'; exact Hc.
Qed.

Lemma one_handler_per_topic_read_witness :
  match handlers_after (process_bag ffmpeg 0 bag_topics mixed_bag) !! gps with
  | None => of_topic gps mixed_bag = []
  | Some hd =>
      of_topic gps mixed_bag <> [] /\
      exists ty, bag_topics !! gps = Some ty /\ class_fits ty hd
  end.
Proof.
  apply (one_handler_per_topic_read ffmpeg 0 bag_topics mixed_bag
           (handlers_after (process_bag ffmpeg 0 bag_topics mixed_bag)) gps).
  vm_compute. reflexivity.
Defined.
